(** * NoteEase: the note list, its view state and its persistence

    A shallow embedding of [notes_frontend/src/App.js].  The component keeps
    six pieces of React state; every event handler is a function from the
    state of the render that created it to the state of the next render, and
    the [useEffect] bodies are functions applied after the render. *)

From Stdlib Require Import ZArith NArith Ascii String DecimalString DecimalZ.
From stdpp Require Import base decidable option numbers list.

Local Open Scope N_scope.

(** ** JavaScript strings

    A JS string is a sequence of UTF-16 code units.  String literals of the
    source are written with [js]. *)

Abbreviation jsstring := (list N).

Definition js (s : string) : jsstring :=
  (λ a, N_of_ascii a) <$> list_ascii_of_string s.

(** ToBoolean on a string: only the empty string is falsy. *)
Definition truthy (s : jsstring) : bool :=
  match s with [] => false | _ :: _ => true end.

(** ToBoolean on [selectedId], which is [null] or a string. *)
Definition truthy_id (o : option jsstring) : bool :=
  match o with None => false | Some s => truthy s end.

(** [a || b] on strings. *)
Definition or_else (a b : jsstring) : jsstring :=
  if truthy a then a else b.

(** WhiteSpace and LineTerminator code points, the ones
    [String.prototype.trim] strips. *)
Definition isWhiteSpace (c : N) : bool :=
  (c =? 0x09) || (c =? 0x0A) || (c =? 0x0B) || (c =? 0x0C) || (c =? 0x0D)
  || (c =? 0x20) || (c =? 0xA0) || (c =? 0x1680)
  || ((0x2000 <=? c) && (c <=? 0x200A))
  || (c =? 0x2028) || (c =? 0x2029) || (c =? 0x202F) || (c =? 0x205F)
  || (c =? 0x3000) || (c =? 0xFEFF).

Fixpoint trimStart (s : jsstring) : jsstring :=
  match s with
  | c :: r => if isWhiteSpace c then trimStart r else s
  | [] => []
  end.

Definition trimEnd (s : jsstring) : jsstring := rev (trimStart (rev s)).

Definition trim (s : jsstring) : jsstring := trimEnd (trimStart s).

(** [s.includes(q)]: [q] occurs in [s] as a run of consecutive code units. *)
Fixpoint includes (s q : jsstring) : bool :=
  bool_decide (q `prefix_of` s)
  || match s with [] => false | _ :: r => includes r q end.

(** [Number.prototype.toString] on an integral time value: the decimal
    digits, with a leading minus sign below zero. *)
Definition toString (n : Z) : jsstring :=
  js (NilZero.string_of_int (Z.to_int n)).

(** ** Data model *)

Module Note.

(** Notes stored as [{ id, title, content, lastEdited }]. *)
Record t := mk {
  id : jsstring;
  title : jsstring;
  content : jsstring;
  lastEdited : jsstring;
}.

End Note.

Module EditNote.

(** The edit buffer [{ title, content }]. *)
Record t := mk {
  title : jsstring;
  content : jsstring;
}.

(** [{ title: "", content: "" }]. *)
Definition blank : t := mk [] [].

End EditNote.

#[global] Instance Note_eq_dec : EqDecision Note.t.
Proof. solve_decision. Defined.

#[global] Instance EditNote_eq_dec : EqDecision EditNote.t.
Proof. solve_decision. Defined.

(** The state hooks of [App].  [notesRef] stands for the identity of the
    array held in [notes]: every [setNotes] of the source installs a newly
    built array, which is what the dependency lists of the effects compare. *)
Record AppState := mkApp {
  notes : list Note.t;
  notesRef : nat;
  selectedId : option jsstring;
  isCreating : bool;
  editNote : EditNote.t;
  search : jsstring;
  sidebarOpen : bool;
}.

Definition setNotes (v : list Note.t) (st : AppState) : AppState :=
  mkApp v (S (notesRef st)) (selectedId st) (isCreating st) (editNote st)
        (search st) (sidebarOpen st).
Definition setSelectedId (v : option jsstring) (st : AppState) : AppState :=
  mkApp (notes st) (notesRef st) v (isCreating st) (editNote st)
        (search st) (sidebarOpen st).
Definition setIsCreating (v : bool) (st : AppState) : AppState :=
  mkApp (notes st) (notesRef st) (selectedId st) v (editNote st)
        (search st) (sidebarOpen st).
Definition setEditNote (v : EditNote.t) (st : AppState) : AppState :=
  mkApp (notes st) (notesRef st) (selectedId st) (isCreating st) v
        (search st) (sidebarOpen st).
Definition setSearch (v : jsstring) (st : AppState) : AppState :=
  mkApp (notes st) (notesRef st) (selectedId st) (isCreating st) (editNote st)
        v (sidebarOpen st).
Definition setSidebarOpen (v : bool) (st : AppState) : AppState :=
  mkApp (notes st) (notesRef st) (selectedId st) (isCreating st) (editNote st)
        (search st) v.

(** The state of the first render, [loaded] being the initial [notes]. *)
Definition initial (loaded : list Note.t) : AppState :=
  mkApp loaded 0 None false EditNote.blank [] true.

(** ** Effects *)

(** "Select most recent note if selectedId is null and notes exist": the
    body of the effect on [notes, selectedId].  Both tests read the values
    of the render, so the second does not see the first's update. *)
Definition selectEffect (st : AppState) : AppState :=
  let st1 :=
    if negb (truthy_id (selectedId st)) && bool_decide (0 < length (notes st))%nat
    then match notes st with
         | n :: _ => setSelectedId (Some (Note.id n)) st
         | [] => st
         end
    else st in
  if bool_decide (length (notes st) = 0%nat)
  then setEditNote EditNote.blank (setIsCreating false (setSelectedId None st1))
  else st1.

(** "Handle window resize": [setSidebarOpen(window.innerWidth > 800)]. *)
Definition handleResize (innerWidth : Z) (st : AppState) : AppState :=
  setSidebarOpen (bool_decide (800 < innerWidth)%Z) st.

(** ** Derived view data *)

(** "Get currently selected note": [notes.find(n => n.id === selectedId)]. *)
Definition currentNote (st : AppState) : option Note.t :=
  match selectedId st with
  | Some sel => snd <$> list_find (λ n, Note.id n = sel) (notes st)
  | None => None
  end.

Section Search.

(** [String.prototype.toLowerCase] is the runtime's Unicode mapping; the
    sidebar filter is stated over whatever mapping the runtime has. *)
Variable toLowerCase : jsstring → jsstring.

(** The predicate of [notes.filter] in [filteredNotes]. *)
Definition matches (q : jsstring) (n : Note.t) : bool :=
  includes (toLowerCase (Note.title n)) (toLowerCase q)
  || includes (toLowerCase (Note.content n)) (toLowerCase q).

(** "Filtered notes for sidebar search". *)
Definition filteredNotes (st : AppState) : list Note.t :=
  if truthy (search st)
  then filter (λ n, matches (search st) n = true) (notes st)
  else notes st.

End Search.

(** The lower-casing of the Basic Latin letters, for running examples. *)
Definition toLowerCase_latin (s : jsstring) : jsstring :=
  (λ c, if (0x41 <=? c) && (c <=? 0x5A) then c + 0x20 else c) <$> s.

(** What [MainArea] renders. *)
Inductive MainView :=
  | Form (buffer : EditNote.t)
  | ViewNote (n : Note.t)
  | NoNotes.

Definition mainArea (st : AppState) : MainView :=
  if isCreating st
     || (truthy_id (selectedId st)
         && negb (bool_decide (EditNote.title (editNote st) = [])))
  then Form (editNote st)
  else match currentNote st with
       | Some n => ViewNote n
       | None => NoNotes
       end.

(** ** Event handlers *)

Definition handleAddNote (st : AppState) : AppState :=
  setSelectedId None (setEditNote EditNote.blank (setIsCreating true st)).

Definition handleSelectNote (noteId : jsstring) (st : AppState) : AppState :=
  setEditNote EditNote.blank (setIsCreating false (setSelectedId (Some noteId) st)).

Definition handleEditNote (st : AppState) : AppState :=
  let st1 := setIsCreating false st in
  match currentNote st with
  | Some n => setEditNote (EditNote.mk (Note.title n) (Note.content n)) st1
  | None => st1
  end.

Definition handleDeleteNote (idToDelete : jsstring) (st : AppState) : AppState :=
  let updated := filter (λ n, Note.id n ≠ idToDelete) (notes st) in
  let st1 := setNotes updated st in
  let st2 :=
    if bool_decide (selectedId st = Some idToDelete)
    then setSelectedId (match updated with
                        | n :: _ => Some (Note.id n)
                        | [] => None
                        end) st1
    else st1 in
  setIsCreating false st2.

(** The placeholder of [trimmedTitle || "(Untitled)"]. *)
Definition untitled : jsstring := js "(Untitled)".

(** [handleSaveNote]: [now] is the reading of [Date.now()], [stamp] the text
    of [new Date().toISOString()].  The source reads the clock again for
    each note the update rewrites; one event is taken to see one stamp. *)
Definition handleSaveNote (now : Z) (stamp : jsstring) (st : AppState) : AppState :=
  let trimmedTitle := trim (or_else (EditNote.title (editNote st)) []) in
  let trimmedContent := trim (or_else (EditNote.content (editNote st)) []) in
  if negb (truthy trimmedTitle) && negb (truthy trimmedContent) then st
  else
    let st1 :=
      if truthy_id (selectedId st) && negb (isCreating st)
      then
        setNotes
          ((λ n, if bool_decide (Some (Note.id n) = selectedId st)
                 then Note.mk (Note.id n) (or_else trimmedTitle untitled)
                              trimmedContent stamp
                 else n) <$> notes st) st
      else
        let id := toString now in
        setIsCreating false
          (setSelectedId (Some id)
             (setNotes (Note.mk id (or_else trimmedTitle untitled)
                                trimmedContent stamp :: notes st) st)) in
    setEditNote EditNote.blank st1.

(** [ev.target.name] of the two form fields. *)
Inductive FieldName := FTitle | FContent.

Definition handleFieldChange (name : FieldName) (value : jsstring)
    (st : AppState) : AppState :=
  match name with
  | FTitle => setEditNote (EditNote.mk value (EditNote.content (editNote st))) st
  | FContent => setEditNote (EditNote.mk (EditNote.title (editNote st)) value) st
  end.

Definition handleSidebarToggle (st : AppState) : AppState :=
  setSidebarOpen (negb (sidebarOpen st)) st.

(** The Cancel button of the form. *)
Definition handleCancel (st : AppState) : AppState :=
  setEditNote EditNote.blank (setIsCreating false st).

(** ** The runtime's JSON

    [JSON.parse] and [JSON.stringify] are built-ins of the runtime.  They are
    modelled on values that carry a number as its lexeme (its numeric value
    plays no part here) and an object as its properties in insertion order
    (the runtime lists array-index keys first; a note has none). *)

#[warnings="-register-all"]
Inductive JSON :=
  | JNull
  | JBool (b : bool)
  | JNumber (lexeme : jsstring)
  | JString (s : jsstring)
  | JArray (items : list JSON)
  | JObject (props : list (jsstring * JSON)).

Inductive exn := SyntaxError.

Inductive outcome (A : Type) :=
  | Returned (a : A)
  | Thrown (e : exn).
Arguments Returned {A} a.
Arguments Thrown {A} e.

(** *** JSON.stringify *)

Definition hex_digit (n : N) : N :=
  if n <? 10 then 0x30 + n else 0x61 + (n - 10).

(** The six code units of a [\uXXXX] escape, lower-case digits. *)
Definition unicode_escape (c : N) : jsstring :=
  [0x5C; 0x75; hex_digit (c / 4096 mod 16); hex_digit (c / 256 mod 16);
   hex_digit (c / 16 mod 16); hex_digit (c mod 16)].

Definition is_high_surrogate (c : N) : bool := (0xD800 <=? c) && (c <=? 0xDBFF).
Definition is_low_surrogate (c : N) : bool := (0xDC00 <=? c) && (c <=? 0xDFFF).

(** One code unit outside the surrogate range. *)
Definition quote_unit (c : N) : jsstring :=
  if c =? 0x08 then js "\b"
  else if c =? 0x09 then js "\t"
  else if c =? 0x0A then js "\n"
  else if c =? 0x0C then js "\f"
  else if c =? 0x0D then js "\r"
  else if c =? 0x22 then [0x5C; 0x22]
  else if c =? 0x5C then js "\\"
  else if c <? 0x20 then unicode_escape c
  else [c].

(** QuoteJSONString without its delimiters: a surrogate pair is copied, a
    lone surrogate is escaped. *)
Fixpoint quote_units (s : jsstring) : jsstring :=
  match s with
  | [] => []
  | c :: r =>
      if is_high_surrogate c then
        match r with
        | d :: r' =>
            if is_low_surrogate d then c :: d :: quote_units r'
            else unicode_escape c ++ quote_units r
        | [] => unicode_escape c
        end
      else if is_low_surrogate c then unicode_escape c ++ quote_units r
      else quote_unit c ++ quote_units r
  end.

Definition quote (s : jsstring) : jsstring :=
  0x22 :: quote_units s ++ [0x22].

Fixpoint join_comma (parts : list jsstring) : jsstring :=
  match parts with
  | [] => []
  | [p] => p
  | p :: rest => p ++ 0x2C :: join_comma rest
  end.

Fixpoint JSON_stringify (v : JSON) : jsstring :=
  match v with
  | JNull => js "null"
  | JBool true => js "true"
  | JBool false => js "false"
  | JNumber lexeme => lexeme
  | JString s => quote s
  | JArray items => 0x5B :: join_comma (map JSON_stringify items) ++ [0x5D]
  | JObject props =>
      0x7B :: join_comma (map (λ kv, quote (fst kv) ++ 0x3A :: JSON_stringify (snd kv)) props)
           ++ [0x7D]
  end.

(** *** JSON.parse: the lexer *)

Inductive token :=
  | TLBrace | TRBrace | TLBracket | TRBracket | TColon | TComma
  | TString (s : jsstring)
  | TNumber (lexeme : jsstring)
  | TTrue | TFalse | TNull.

(** Where the lexer stands inside a number. *)
Inductive numstate :=
  | NMinus | NZero | NInt | NDot | NFrac | NExp | NExpSign | NExpDigits.

Inductive lexstate :=
  | LStart
  | LString (acc : jsstring)                (* units read, last first *)
  | LEscape (acc : jsstring)                (* after a backslash *)
  | LUnicode (acc : jsstring) (n : nat) (v : N)  (* n hex digits read, value v *)
  | LNumber (ns : numstate) (acc : jsstring)
  | LLiteral (rest : jsstring) (t : token).

Definition isJSONWhiteSpace (c : N) : bool :=
  (c =? 0x09) || (c =? 0x0A) || (c =? 0x0D) || (c =? 0x20).

Definition isDigit (c : N) : bool := (0x30 <=? c) && (c <=? 0x39).

Definition hex_value (c : N) : option N :=
  if (0x30 <=? c) && (c <=? 0x39) then Some (c - 0x30)
  else if (0x61 <=? c) && (c <=? 0x66) then Some (c - 0x61 + 10)
  else if (0x41 <=? c) && (c <=? 0x46) then Some (c - 0x41 + 10)
  else None.

(** The first code unit of a token. *)
Definition start_step (c : N) : option (lexstate * list token) :=
  if isJSONWhiteSpace c then Some (LStart, [])
  else if c =? 0x7B then Some (LStart, [TLBrace])
  else if c =? 0x7D then Some (LStart, [TRBrace])
  else if c =? 0x5B then Some (LStart, [TLBracket])
  else if c =? 0x5D then Some (LStart, [TRBracket])
  else if c =? 0x3A then Some (LStart, [TColon])
  else if c =? 0x2C then Some (LStart, [TComma])
  else if c =? 0x22 then Some (LString [], [])
  else if c =? 0x2D then Some (LNumber NMinus [c], [])
  else if c =? 0x30 then Some (LNumber NZero [c], [])
  else if isDigit c then Some (LNumber NInt [c], [])
  else if c =? 0x74 then Some (LLiteral (js "rue") TTrue, [])
  else if c =? 0x66 then Some (LLiteral (js "alse") TFalse, [])
  else if c =? 0x6E then Some (LLiteral (js "ull") TNull, [])
  else None.

(** A number may end in these states. *)
Definition num_final (ns : numstate) : bool :=
  match ns with
  | NZero | NInt | NFrac | NExpDigits => true
  | NMinus | NDot | NExp | NExpSign => false
  end.

(** The next state inside a number, when [c] continues it. *)
Definition num_step (ns : numstate) (c : N) : option numstate :=
  if isDigit c then
    match ns with
    | NMinus => Some (if c =? 0x30 then NZero else NInt)
    | NZero => None
    | NInt => Some NInt
    | NDot | NFrac => Some NFrac
    | NExp | NExpSign | NExpDigits => Some NExpDigits
    end
  else if c =? 0x2E then
    match ns with NZero | NInt => Some NDot | _ => None end
  else if (c =? 0x65) || (c =? 0x45) then
    match ns with NZero | NInt | NFrac => Some NExp | _ => None end
  else if (c =? 0x2B) || (c =? 0x2D) then
    match ns with NExp => Some NExpSign | _ => None end
  else None.

Definition continues_number (c : N) : bool :=
  isDigit c || (c =? 0x2E) || (c =? 0x65) || (c =? 0x45) || (c =? 0x2B) || (c =? 0x2D).

Definition lex_step (st : lexstate) (c : N) : option (lexstate * list token) :=
  match st with
  | LStart => start_step c
  | LString acc =>
      if c =? 0x22 then Some (LStart, [TString (rev acc)])
      else if c =? 0x5C then Some (LEscape acc, [])
      else if c <? 0x20 then None
      else Some (LString (c :: acc), [])
  | LEscape acc =>
      if (c =? 0x22) || (c =? 0x5C) || (c =? 0x2F) then Some (LString (c :: acc), [])
      else if c =? 0x62 then Some (LString (0x08 :: acc), [])
      else if c =? 0x66 then Some (LString (0x0C :: acc), [])
      else if c =? 0x6E then Some (LString (0x0A :: acc), [])
      else if c =? 0x72 then Some (LString (0x0D :: acc), [])
      else if c =? 0x74 then Some (LString (0x09 :: acc), [])
      else if c =? 0x75 then Some (LUnicode acc 0 0, [])
      else None
  | LUnicode acc n v =>
      match hex_value c with
      | Some h =>
          if bool_decide (n = 3%nat) then Some (LString ((v * 16 + h) :: acc), [])
          else Some (LUnicode acc (S n) (v * 16 + h), [])
      | None => None
      end
  | LNumber ns acc =>
      if continues_number c then
        match num_step ns c with
        | Some ns' => Some (LNumber ns' (c :: acc), [])
        | None => None
        end
      else if num_final ns then
        match start_step c with
        | Some (st', toks) => Some (st', TNumber (rev acc) :: toks)
        | None => None
        end
      else None
  | LLiteral rest t =>
      match rest with
      | [x] => if c =? x then Some (LStart, [t]) else None
      | x :: rest' => if c =? x then Some (LLiteral rest' t, []) else None
      | [] => None
      end
  end.

(** At the end of the text. *)
Definition lex_finish (st : lexstate) : option (list token) :=
  match st with
  | LStart => Some []
  | LNumber ns acc => if num_final ns then Some [TNumber (rev acc)] else None
  | _ => None
  end.

Fixpoint lex (st : lexstate) (s : jsstring) : option (list token) :=
  match s with
  | [] => lex_finish st
  | c :: r =>
      match lex_step st c with
      | Some (st', toks) => (toks ++.) <$> lex st' r
      | None => None
      end
  end.

(** *** JSON.parse: the grammar, as a stack automaton over the tokens *)

(** A container under construction. *)
Inductive frame :=
  | InArray (items : list JSON)                       (* elements, last first *)
  | InObject (props : list (jsstring * JSON)) (key : jsstring).

Inductive pstate :=
  | PValue (stack : list frame)           (* a value must follow *)
  | PArrayOpen (stack : list frame)       (* after [ *)
  | PArrayNext (items : list JSON) (stack : list frame)
  | PObjectOpen (stack : list frame)      (* after { *)
  | PObjectKey (props : list (jsstring * JSON)) (stack : list frame)
  | PObjectColon (props : list (jsstring * JSON)) (key : jsstring) (stack : list frame)
  | PObjectNext (props : list (jsstring * JSON)) (stack : list frame)
  | PDone (v : JSON).

(** CreateDataProperty: a repeated key keeps its place and takes the later
    value. *)
Fixpoint set_prop (k : jsstring) (v : JSON) (props : list (jsstring * JSON))
    : list (jsstring * JSON) :=
  match props with
  | [] => [(k, v)]
  | (k', v') :: rest =>
      if bool_decide (k' = k) then (k', v) :: rest
      else (k', v') :: set_prop k v rest
  end.

(** A finished value goes to the container on top of the stack. *)
Definition deliver (v : JSON) (stack : list frame) : pstate :=
  match stack with
  | [] => PDone v
  | InArray items :: stack' => PArrayNext (v :: items) stack'
  | InObject props key :: stack' => PObjectNext (set_prop key v props) stack'
  end.

Definition value_step (stack : list frame) (t : token) : option pstate :=
  match t with
  | TString s => Some (deliver (JString s) stack)
  | TNumber lexeme => Some (deliver (JNumber lexeme) stack)
  | TTrue => Some (deliver (JBool true) stack)
  | TFalse => Some (deliver (JBool false) stack)
  | TNull => Some (deliver JNull stack)
  | TLBracket => Some (PArrayOpen stack)
  | TLBrace => Some (PObjectOpen stack)
  | _ => None
  end.

Definition parse_step (st : pstate) (t : token) : option pstate :=
  match st with
  | PValue stack => value_step stack t
  | PArrayOpen stack =>
      match t with
      | TRBracket => Some (deliver (JArray []) stack)
      | _ => value_step (InArray [] :: stack) t
      end
  | PArrayNext items stack =>
      match t with
      | TComma => Some (PValue (InArray items :: stack))
      | TRBracket => Some (deliver (JArray (rev items)) stack)
      | _ => None
      end
  | PObjectOpen stack =>
      match t with
      | TRBrace => Some (deliver (JObject []) stack)
      | TString key => Some (PObjectColon [] key stack)
      | _ => None
      end
  | PObjectKey props stack =>
      match t with
      | TString key => Some (PObjectColon props key stack)
      | _ => None
      end
  | PObjectColon props key stack =>
      match t with
      | TColon => Some (PValue (InObject props key :: stack))
      | _ => None
      end
  | PObjectNext props stack =>
      match t with
      | TComma => Some (PObjectKey props stack)
      | TRBrace => Some (deliver (JObject props) stack)
      | _ => None
      end
  | PDone _ => None
  end.

Fixpoint parse_tokens (st : pstate) (ts : list token) : option pstate :=
  match ts with
  | [] => Some st
  | t :: ts' =>
      match parse_step st t with
      | Some st' => parse_tokens st' ts'
      | None => None
      end
  end.

(** [JSON.parse(text)]: the value, or a SyntaxError. *)
Definition JSON_parse (text : jsstring) : outcome JSON :=
  match lex LStart text with
  | Some ts =>
      match parse_tokens (PValue []) ts with
      | Some (PDone v) => Returned v
      | _ => Thrown SyntaxError
      end
  | None => Thrown SyntaxError
  end.

(** ** Persistence *)

(** A note as the object the handlers build: [{ id, title, content,
    lastEdited }], properties in that order. *)
Definition note_value (n : Note.t) : JSON :=
  JObject [(js "id", JString (Note.id n));
           (js "title", JString (Note.title n));
           (js "content", JString (Note.content n));
           (js "lastEdited", JString (Note.lastEdited n))].

Definition notes_value (ns : list Note.t) : JSON :=
  JArray (note_value <$> ns).

(** The text the persistence effect writes under ["noteease-notes"]:
    [JSON.stringify(notes)]. *)
Definition persist (ns : list Note.t) : jsstring :=
  JSON_stringify (notes_value ns).

(** The initializer of the [notes] state.  [saved] is what
    [localStorage.getItem] returned: [null] or the stored text. *)
Definition load (saved : option jsstring) : outcome JSON :=
  match saved with
  | Some text => if truthy text then JSON_parse text else Returned (JArray [])
  | None => Returned (JArray [])
  end.

(** ** Commands

    One user action: the handler runs on the state of the current render;
    the selection effect runs after the next render when [notes] (by
    identity) or [selectedId] (by value) changed, and once more if it changed
    them itself. *)

Inductive command :=
  | CAdd
  | CSelect (noteId : jsstring)
  | CEdit
  | CDelete (idToDelete : jsstring)
  | CSave (now : Z) (stamp : jsstring)
  | CChange (name : FieldName) (value : jsstring)
  | CCancel
  | CSearch (query : jsstring)
  | CToggle
  | CResize (innerWidth : Z).

Definition handler (c : command) : AppState → AppState :=
  match c with
  | CAdd => handleAddNote
  | CSelect noteId => handleSelectNote noteId
  | CEdit => handleEditNote
  | CDelete idToDelete => handleDeleteNote idToDelete
  | CSave now stamp => handleSaveNote now stamp
  | CChange name value => handleFieldChange name value
  | CCancel => handleCancel
  | CSearch query => setSearch query
  | CToggle => handleSidebarToggle
  | CResize innerWidth => handleResize innerWidth
  end.

Definition deps_changed (old new : AppState) : bool :=
  negb (bool_decide (notesRef old = notesRef new))
  || negb (bool_decide (selectedId old = selectedId new)).

Definition afterRender (old new : AppState) : AppState :=
  if deps_changed old new then
    let new' := selectEffect new in
    if deps_changed new new' then selectEffect new' else new'
  else new.

Definition run (c : command) (st : AppState) : AppState :=
  afterRender st (handler c st).

(** The first render: both effects run on mount. *)
Definition mount (loaded : list Note.t) (innerWidth : Z) : AppState :=
  let st := handleResize innerWidth (selectEffect (initial loaded)) in
  afterRender (initial loaded) st.

Inductive reachable : AppState → Prop :=
  | reachable_mount innerWidth : reachable (mount [] innerWidth)
  | reachable_run c st : reachable st → reachable (run c st).

(** The store-level [add(title, content)]: the add button, the two fields
    typed in, the form submitted. *)
Record AddCall := mkAdd {
  add_title : jsstring;
  add_content : jsstring;
  add_now : Z;
  add_stamp : jsstring;
}.

Definition add (c : AddCall) (st : AppState) : AppState :=
  run (CSave (add_now c) (add_stamp c))
    (run (CChange FContent (add_content c))
       (run (CChange FTitle (add_title c))
          (run CAdd st))).

(** Both fields blank after trimming: the submission [handleSaveNote]
    returns from early. *)
Definition blank_input (t c : jsstring) : bool :=
  negb (truthy (trim t)) && negb (truthy (trim c)).

Definition accepted (c : AddCall) : bool :=
  negb (blank_input (add_title c) (add_content c)).

Definition add_all (calls : list AddCall) (st : AppState) : AppState :=
  foldl (λ s c, add c s) st calls.

Definition run_all (cs : list command) (st : AppState) : AppState :=
  foldl (λ s c, run c s) st cs.

(** The note an accepted add call puts in the collection. *)
Definition added_note (c : AddCall) : Note.t :=
  Note.mk (toString (add_now c)) (or_else (trim (add_title c)) untitled)
          (trim (add_content c)) (add_stamp c).

(** [q] occurs in [s] as a run of consecutive code units. *)
Definition occurs (q s : jsstring) : Prop :=
  ∃ pre post, s = pre ++ q ++ post.

(** A session: note A is written, then note B, then B's Edit button is
    pressed. *)
Definition editing_B : AppState :=
  run_all [CAdd; CChange FTitle (js "A"); CChange FContent (js "a");
           CSave 1 (js "1970-01-01T00:00:00.001Z");
           CAdd; CChange FTitle (js "B"); CChange FContent (js "b");
           CSave 2 (js "1970-01-01T00:00:00.002Z");
           CEdit]
          (mount [] 1024).

(** Every note of the collection has a non-empty title. *)
Definition titled (ns : list Note.t) : Prop :=
  Forall (λ n, Note.title n ≠ []) ns.

(** *** The token streams of persisted notes *)

Definition note_tokens (n : Note.t) : list token :=
  [TLBrace; TString (js "id"); TColon; TString (Note.id n); TComma;
   TString (js "title"); TColon; TString (Note.title n); TComma;
   TString (js "content"); TColon; TString (Note.content n); TComma;
   TString (js "lastEdited"); TColon; TString (Note.lastEdited n); TRBrace].

(** The notes after the first, each behind its comma. *)
Fixpoint more_tokens (ns : list Note.t) : list token :=
  match ns with
  | [] => []
  | n :: ns' => TComma :: note_tokens n ++ more_tokens ns'
  end.

Definition notes_tokens (ns : list Note.t) : list token :=
  match ns with
  | [] => [TLBracket; TRBracket]
  | n :: ns' => TLBracket :: note_tokens n ++ more_tokens ns' ++ [TRBracket]
  end.

Fixpoint more_text (parts : list jsstring) : jsstring :=
  match parts with
  | [] => []
  | p :: rest => 0x2C :: p ++ more_text rest
  end.

(** The text [s], wherever a token may start, lexes to [ts]. *)
Definition lexes (s : jsstring) (ts : list token) : Prop :=
  ∀ rest, lex LStart (s ++ rest) = (ts ++.) <$> lex LStart rest.

(** The tokens [ts], wherever a value may stand, parse to [v]. *)
Definition parses (ts : list token) (v : JSON) : Prop :=
  ∀ stack rest,
    parse_tokens (PValue stack) (ts ++ rest) = parse_tokens (deliver v stack) rest.

(** ** The sidebar *)

(** What one list item renders: its React key, [n.title || "(Untitled)"],
    [n.content && n.content.substring(0, 42)], and whether it carries the
    "selected" class. *)
Record SidebarItem := mkItem {
  item_key : jsstring;
  item_label : jsstring;
  item_mini : jsstring;
  item_selected : bool;
}.

Definition sidebarItem (st : AppState) (n : Note.t) : SidebarItem :=
  mkItem (Note.id n)
         (or_else (Note.title n) untitled)
         (if truthy (Note.content n) then take 42 (Note.content n)
          else Note.content n)
         (bool_decide (Some (Note.id n) = selectedId st) && negb (isCreating st)).

(** The commands the rendered page offers: a list item selects or deletes
    the note it shows, the view's Delete button deletes the current note. *)
Definition offered (c : command) (st : AppState) : Prop :=
  match c with
  | CSelect i | CDelete i => i ∈ Note.id <$> notes st
  | _ => True
  end.

Inductive ui_reachable : AppState → Prop :=
  | ui_mount innerWidth : ui_reachable (mount [] innerWidth)
  | ui_run c st : ui_reachable st → offered c st → ui_reachable (run c st).

(** Only white space, in the sense of [trim]. *)
Definition whitespace_only (s : jsstring) : Prop :=
  Forall (λ c, isWhiteSpace c = true) s.

(** The first code unit, if any, is not white space. *)
Definition clean_start (s : jsstring) : Prop :=
  match s with [] => True | c :: _ => isWhiteSpace c = false end.

(** A text [trim] leaves as it is. *)
Definition trimmed (s : jsstring) : Prop := trim s = s.

(** A note as [handleSaveNote] writes it: title and content trimmed, the
    title not empty, the id the decimal text of a clock reading. *)
Definition normal_note (n : Note.t) : Prop :=
  trimmed (Note.title n) ∧ trimmed (Note.content n)
  ∧ Note.title n ≠ [] ∧ ∃ z, Note.id n = toString z.

(** A state in which something is selected exactly when notes exist, the
    selected id naming one of them, and every id is non-empty. *)
Definition selection_valid (st : AppState) : Prop :=
  Forall (λ n, truthy (Note.id n) = true) (notes st)
  ∧ match notes st with
    | [] => selectedId st = None
    | _ :: _ => ∃ n, n ∈ notes st ∧ selectedId st = Some (Note.id n)
    end.

(** ** Letter case

    [String.prototype.toLowerCase] is the Unicode default case conversion
    with the context rule of SpecialCasing.  It is written out here for
    Basic Latin and the Greek letters U+0391..U+03C9, and says nothing of
    texts with other code units. *)

(** The lower-case form of a Basic Latin code unit. *)
Definition lower_latin (c : N) : N :=
  if (0x41 <=? c) && (c <=? 0x5A) then c + 0x20 else c.

(** A text of Basic Latin code units only. *)
Definition basic_latin (s : jsstring) : Prop := Forall (λ c, c < 0x80) s.

(** Cased letters: A-Z, a-z, the Greek capitals and small letters. *)
Definition isCased (c : N) : bool :=
  ((0x41 <=? c) && (c <=? 0x5A)) || ((0x61 <=? c) && (c <=? 0x7A))
  || ((0x391 <=? c) && (c <=? 0x3A9) && negb (c =? 0x3A2))
  || ((0x3B1 <=? c) && (c <=? 0x3C9)).

(** Case-ignorable: apostrophe, full stop, colon, circumflex, grave. *)
Definition isCaseIgnorable (c : N) : bool :=
  (c =? 0x27) || (c =? 0x2E) || (c =? 0x3A) || (c =? 0x5E) || (c =? 0x60).

(** Case-ignorable code units, then a cased letter. *)
Fixpoint cased_next (s : jsstring) : bool :=
  match s with
  | [] => false
  | c :: r =>
      if isCased c then true
      else if isCaseIgnorable c then cased_next r
      else false
  end.

(** Final_Sigma: a cased letter comes before (case-ignorables apart) and
    none comes after.  [before] is the text before, last unit first. *)
Definition final_sigma (before after : jsstring) : bool :=
  cased_next before && negb (cased_next after).

Definition lower_unit (before : jsstring) (c : N) (after : jsstring) : N :=
  if c =? 0x3A3 then (if final_sigma before after then 0x3C2 else 0x3C3)
  else if (0x41 <=? c) && (c <=? 0x5A) then c + 0x20
  else if (0x391 <=? c) && (c <=? 0x3A9) && negb (c =? 0x3A2) then c + 0x20
  else c.

Fixpoint lower_from (before s : jsstring) : jsstring :=
  match s with
  | [] => []
  | c :: r => lower_unit before c r :: lower_from (c :: before) r
  end.

Definition toLowerCase_js (s : jsstring) : jsstring := lower_from [] s.

(** Two code units that are the same, or the two cases of one Basic Latin
    letter. *)
Definition same_letter (a b : N) : Prop :=
  a = b
  ∨ (0x41 ≤ a ∧ a ≤ 0x5A ∧ b = a + 0x20)
  ∨ (0x41 ≤ b ∧ b ≤ 0x5A ∧ a = b + 0x20).

(** [t] contains a run of code units that is [q] up to the case of its
    Basic Latin letters. *)
Definition contains_ignoring_case (q t : jsstring) : Prop :=
  ∃ pre w post, t = pre ++ w ++ post ∧ Forall2 same_letter w q.

(** A note titled with capital alpha, sigma, alpha is added, then capital
    alpha, sigma is typed in the search box. *)
Definition searching_sigma : AppState :=
  run (CSearch [0x391; 0x3A3])
    (add (mkAdd [0x391; 0x3A3; 0x391] [] 1 (js "1970-01-01T00:00:00.001Z"))
         (mount [] 1024)).

(** What is under ["noteease-notes"] once the persistence effect has run. *)
Definition storage_after (st : AppState) : option jsstring :=
  Some (persist (notes st)).

(** * Properties *)

(** ** Strings *)

Lemma js_inj (a b : string) : js a = js b → a = b.
Proof.
  unfold js. intros H.
  assert (Hl : list_ascii_of_string a = list_ascii_of_string b).
  { revert H. generalize (list_ascii_of_string a) (list_ascii_of_string b).
    induction l as [|x l IH]; intros [|y k] H; simplify_eq/=; try done.
    f_equal; [|by apply IH].
    rewrite <- (ascii_N_embedding x), <- (ascii_N_embedding y). congruence. }
  rewrite <- (string_of_list_ascii_of_string a),
          <- (string_of_list_ascii_of_string b). by rewrite Hl.
Qed.

Lemma string_of_int_to_int (n : Z) :
  NilZero.int_of_string (NilZero.string_of_int (Z.to_int n)) = Some (Z.to_int n).
Proof.
  apply NilZero.isi; destruct n as [|p|p]; simpl; try discriminate.
  all: intros [= H]; exact (DecimalPos.Unsigned.to_uint_nonnil p H).
Qed.

Lemma toString_inj (a b : Z) : toString a = toString b → a = b.
Proof.
  unfold toString. intros H%js_inj.
  apply DecimalZ.to_int_inj.
  pose proof (string_of_int_to_int a) as Ha.
  rewrite H, string_of_int_to_int in Ha. congruence.
Qed.

Lemma toString_truthy (n : Z) : truthy (toString n) = true.
Proof.
  unfold toString.
  destruct (NilZero.string_of_int (Z.to_int n)) eqn:E; [|done].
  pose proof (string_of_int_to_int n) as H. by rewrite E in H.
Qed.

Lemma truthy_or_else (a b : jsstring) :
  truthy b = true → truthy (or_else a b) = true.
Proof. unfold or_else. by destruct a. Qed.

Lemma or_else_nil (a : jsstring) : or_else a [] = a.
Proof. by destruct a. Qed.

(** ** The selection effect *)

Lemma selectEffect_notes st : notes (selectEffect st) = notes st.
Proof.
  destruct st as [[|n ns] r sel cr ed q sb]; unfold selectEffect; simpl;
    by destruct (truthy_id sel).
Qed.

Lemma selectEffect_notesRef st : notesRef (selectEffect st) = notesRef st.
Proof.
  destruct st as [[|n ns] r sel cr ed q sb]; unfold selectEffect; simpl;
    by destruct (truthy_id sel).
Qed.

Lemma selectEffect_selectedId st :
  selectedId (selectEffect st) =
    match notes st with
    | [] => None
    | n :: _ => if truthy_id (selectedId st) then selectedId st
                else Some (Note.id n)
    end.
Proof.
  destruct st as [[|n ns] r sel cr ed q sb]; unfold selectEffect; simpl;
    by destruct (truthy_id sel).
Qed.

(** The effect settles: running it on its own result changes nothing. *)
Lemma selectEffect_idemp st : selectEffect (selectEffect st) = selectEffect st.
Proof.
  destruct st as [ns r sel cr ed q sb]. unfold selectEffect; simpl.
  destruct ns as [|n ns]; simpl; [by destruct (truthy_id sel)|].
  destruct (truthy_id sel) eqn:E; simpl; [by rewrite E|].
  by destruct (truthy (Note.id n)).
Qed.

Lemma afterRender_notes old new : notes (afterRender old new) = notes new.
Proof.
  unfold afterRender. repeat case_match; by rewrite ?selectEffect_notes.
Qed.

Lemma afterRender_cases old new :
  afterRender old new = new ∨ afterRender old new = selectEffect new.
Proof.
  unfold afterRender. repeat case_match; rewrite ?selectEffect_idemp; auto.
Qed.

Lemma afterRender_changed old new :
  notesRef old ≠ notesRef new → afterRender old new = selectEffect new.
Proof.
  intros H. unfold afterRender, deps_changed.
  rewrite (bool_decide_eq_false_2 _ H); simpl.
  case_match; by rewrite ?selectEffect_idemp.
Qed.

Lemma run_notes c st : notes (run c st) = notes (handler c st).
Proof. apply afterRender_notes. Qed.

(** ** Saving *)

Lemma run_unchanged_deps c st :
  notesRef (handler c st) = notesRef st →
  selectedId (handler c st) = selectedId st →
  run c st = handler c st.
Proof.
  intros Hr Hs. unfold run, afterRender.
  assert (deps_changed st (handler c st) = false) as ->; [|done].
  unfold deps_changed. by rewrite Hr, Hs, !bool_decide_eq_true_2.
Qed.

Lemma run_CChange name value st :
  run (CChange name value) st = handleFieldChange name value st.
Proof. apply run_unchanged_deps; by destruct name. Qed.

(** A blank submission returns before any state is set. *)
Lemma handleSaveNote_blank now stamp st :
  blank_input (EditNote.title (editNote st)) (EditNote.content (editNote st)) = true →
  handleSaveNote now stamp st = st.
Proof.
  unfold blank_input, handleSaveNote. rewrite !or_else_nil. by intros ->.
Qed.

(** The "Create" branch: taken when nothing is selected or the form was
    opened by the add button. *)
Lemma handleSaveNote_create now stamp st :
  blank_input (EditNote.title (editNote st)) (EditNote.content (editNote st)) = false →
  truthy_id (selectedId st) && negb (isCreating st) = false →
  handleSaveNote now stamp st =
    mkApp (Note.mk (toString now)
                   (or_else (trim (EditNote.title (editNote st))) untitled)
                   (trim (EditNote.content (editNote st))) stamp :: notes st)
          (S (notesRef st)) (Some (toString now)) false EditNote.blank
          (search st) (sidebarOpen st).
Proof.
  unfold blank_input, handleSaveNote. rewrite !or_else_nil. by intros -> ->.
Qed.

(** The "Edit existing" branch. *)
Lemma handleSaveNote_update now stamp st :
  blank_input (EditNote.title (editNote st)) (EditNote.content (editNote st)) = false →
  truthy_id (selectedId st) && negb (isCreating st) = true →
  handleSaveNote now stamp st =
    mkApp ((λ n, if bool_decide (Some (Note.id n) = selectedId st)
                 then Note.mk (Note.id n)
                        (or_else (trim (EditNote.title (editNote st))) untitled)
                        (trim (EditNote.content (editNote st))) stamp
                 else n) <$> notes st)
          (S (notesRef st)) (selectedId st) (isCreating st) EditNote.blank
          (search st) (sidebarOpen st).
Proof.
  unfold blank_input, handleSaveNote. rewrite !or_else_nil. by intros -> ->.
Qed.

(** After the add button the next save creates. *)
Lemma run_CAdd st :
  notes (run CAdd st) = notes st
  ∧ truthy_id (selectedId (run CAdd st)) && negb (isCreating (run CAdd st)) = false.
Proof.
  unfold run.
  destruct (afterRender_cases st (handler CAdd st)) as [-> | ->];
    destruct st as [[|n ns] r sel cr ed q sb]; unfold selectEffect; simpl;
    by rewrite ?andb_false_r.
Qed.

Lemma selectEffect_selected st :
  notes st ≠ [] → truthy_id (selectedId st) = true → selectEffect st = st.
Proof.
  destruct st as [[|n ns] r sel cr ed q sb]; [done|].
  unfold selectEffect; simpl. by intros _ ->.
Qed.

Lemma add_unfold call st :
  ∃ st1,
    notes st1 = notes st
    ∧ truthy_id (selectedId st1) && negb (isCreating st1) = false
    ∧ editNote st1 = EditNote.mk (add_title call) (add_content call)
    ∧ add call st = run (CSave (add_now call) (add_stamp call)) st1.
Proof.
  destruct (run_CAdd st) as [Hn Hc].
  eexists. split_and!; [| | |unfold add; reflexivity];
    rewrite !run_CChange; destruct (run CAdd st); simpl in *; done.
Qed.

Lemma add_accepted call st :
  accepted call = true →
  add call st =
    mkApp (Note.mk (toString (add_now call))
                   (or_else (trim (add_title call)) untitled)
                   (trim (add_content call)) (add_stamp call) :: notes st)
          (S (notesRef (run CAdd st))) (Some (toString (add_now call))) false
          EditNote.blank (search (run CAdd st)) (sidebarOpen (run CAdd st)).
Proof.
  intros Hacc.
  unfold add. rewrite !run_CChange.
  destruct (run_CAdd st) as [Hn Hc].
  destruct (run CAdd st) as [ns r sel cr ed q sb]; simpl in *; subst ns.
  unfold run; simpl. unfold accepted in Hacc. apply negb_true_iff in Hacc.
  rewrite afterRender_changed; rewrite handleSaveNote_create; simpl; try done.
  apply selectEffect_selected; simpl; [done|apply toString_truthy].
Qed.

Lemma add_rejected call st :
  accepted call = false → notes (add call st) = notes st.
Proof.
  intros Hacc. destruct (add_unfold call st) as (st1 & Hn & _ & He & ->).
  rewrite run_notes; simpl. rewrite handleSaveNote_blank; [done|].
  rewrite He; simpl. unfold accepted in Hacc. by apply negb_false_iff in Hacc.
Qed.

(** C4. A save whose title and content are both empty after trimming is
    rejected: the handler returns the state it was given, so no note is
    created or changed and the collection is the one before; the same holds
    for the store-level add with such a pair. *)
Theorem save_blank_noop (st : AppState) (t c : jsstring) (now : Z) (stamp : jsstring) :
  trim t = [] → trim c = [] →
  (editNote st = EditNote.mk t c →
     handleSaveNote now stamp st = st ∧ run (CSave now stamp) st = st)
  ∧ notes (add (mkAdd t c now stamp) st) = notes st.
Proof.
  intros Ht Hc.
  assert (Hb : blank_input t c = true) by (unfold blank_input; by rewrite Ht, Hc).
  split.
  - intros He.
    assert (Hs : handleSaveNote now stamp st = st)
      by (apply handleSaveNote_blank; by rewrite He).
    split; [done|]. rewrite run_unchanged_deps; simpl; by rewrite Hs.
  - apply add_rejected. unfold accepted; simpl. by rewrite Hb.
Qed.

Lemma save_blank_noop_witness :
  let st := mkApp [Note.mk (js "1") (js "Groceries") (js "Milk") (js "t")] 1
                  (Some (js "1")) false (EditNote.mk (js "   ") []) [] true in
  handleSaveNote 7 (js "t2") st = st
  ∧ notes (add (mkAdd (js "   ") [] 7 (js "t2")) st) = notes st.
Proof.
  intros st.
  destruct (save_blank_noop st (js "   ") [] 7 (js "t2")) as [H1 H2];
    [reflexivity|reflexivity|].
  split; [apply H1; reflexivity|exact H2].
Defined.

(** C5. For a title and content not both blank after trimming, add builds
    one note, titled with the trimmed title or with "(Untitled)" when that
    is empty, puts it in front of the collection, whose notes keep their
    order, and selects the new note's id. *)
Theorem add_prepends (call : AddCall) (st : AppState) :
  accepted call = true →
  ∃ new,
    notes (add call st) = new :: notes st
    ∧ Note.title new = (if bool_decide (trim (add_title call) = [])
                        then js "(Untitled)" else trim (add_title call))
    ∧ Note.content new = trim (add_content call)
    ∧ Note.id new = toString (add_now call)
    ∧ Note.lastEdited new = add_stamp call
    ∧ selectedId (add call st) = Some (Note.id new)
    ∧ isCreating (add call st) = false.
Proof.
  intros Hacc. rewrite (add_accepted _ _ Hacc). eexists; simpl.
  split_and!; try reflexivity.
  unfold or_else. by destruct (trim (add_title call)).
Qed.

Lemma add_prepends_witness :
  ∃ new,
    notes (add (mkAdd (js "  ") (js " Milk, eggs ") 1700000000000 (js "t"))
               (mount [] 1024)) = [new]
    ∧ Note.title new = js "(Untitled)"
    ∧ Note.content new = js "Milk, eggs".
Proof.
  destruct (add_prepends (mkAdd (js "  ") (js " Milk, eggs ") 1700000000000 (js "t"))
              (mount [] 1024)) as (new & H1 & H2 & H3 & _); [reflexivity|].
  exists new. split_and!; [exact H1|exact H2|exact H3].
Defined.

(** ** Updating *)

Lemma run_CSave_update now stamp st :
  blank_input (EditNote.title (editNote st)) (EditNote.content (editNote st)) = false →
  truthy_id (selectedId st) && negb (isCreating st) = true →
  notes (run (CSave now stamp) st) =
    (λ n, if bool_decide (Some (Note.id n) = selectedId st)
          then Note.mk (Note.id n)
                 (or_else (trim (EditNote.title (editNote st))) untitled)
                 (trim (EditNote.content (editNote st))) stamp
          else n) <$> notes st.
Proof.
  intros Hb Hu. rewrite run_notes; simpl.
  by rewrite handleSaveNote_update.
Qed.

(** C6, as the code has it.  With a note selected and the form not opened
    by the add button, a save of a title and content that are not both blank
    keeps the length and the order of the collection: at every position the
    note is the old one if its id is not the selected id, and otherwise the
    old one with its title replaced by the trimmed title (or "(Untitled)"),
    its content by the trimmed content and its lastEdited by the new stamp.
    With the selected id absent the collection is unchanged. *)
Theorem update_in_place (st : AppState) (sel t c : jsstring) (now : Z) (stamp : jsstring) :
  selectedId st = Some sel → truthy sel = true → isCreating st = false →
  editNote st = EditNote.mk t c → blank_input t c = false →
  let st' := run (CSave now stamp) st in
  let title' := if bool_decide (trim t = []) then js "(Untitled)" else trim t in
  length (notes st') = length (notes st)
  ∧ (∀ i n, notes st !! i = Some n →
       notes st' !! i =
         Some (if bool_decide (Note.id n = sel)
               then Note.mk (Note.id n) title' (trim c) stamp
               else n))
  ∧ (sel ∉ Note.id <$> notes st → notes st' = notes st).
Proof.
  intros Hsel Ht Hcr He Hb st' title'.
  assert (Hn : notes st' =
    (λ n, if bool_decide (Note.id n = sel)
          then Note.mk (Note.id n) title' (trim c) stamp else n) <$> notes st).
  { unfold st'. rewrite run_CSave_update; rewrite ?He, ?Hsel, ?Hcr; simpl;
      [|done|by rewrite Ht].
    apply list_fmap_ext. intros _ n _.
    assert (or_else (trim t) untitled = title') as ->
      by (unfold or_else, title'; by destruct (trim t)).
    destruct (decide (Note.id n = sel)) as [->|Hne].
    - by rewrite !bool_decide_eq_true_2.
    - rewrite !bool_decide_eq_false_2; [done..|congruence]. }
  rewrite Hn. split_and!.
  - by rewrite length_fmap.
  - intros i n Hi. by rewrite list_lookup_fmap, Hi.
  - intros Hnot. rewrite <- (list_fmap_id (notes st)) at 2.
    apply list_fmap_ext. intros i n Hi.
    rewrite bool_decide_eq_false_2; [done|].
    intros <-. apply Hnot, list_elem_of_fmap. exists n. split; [done|].
    by eapply list_elem_of_lookup_2.
Qed.

Lemma update_in_place_witness :
  notes (run (CSave 9 (js "later"))
           (mkApp [Note.mk (js "2") (js "B") (js "b") (js "t2");
                   Note.mk (js "1") (js "A") (js "a") (js "t1")]
                  2 (Some (js "1")) false (EditNote.mk (js " ") (js " x ")) [] true))
    !! 1%nat
  = Some (Note.mk (js "1") (js "(Untitled)") (js "x") (js "later")).
Proof.
  refine (proj1 (proj2 (update_in_place
    (mkApp [Note.mk (js "2") (js "B") (js "b") (js "t2");
            Note.mk (js "1") (js "A") (js "a") (js "t1")]
           2 (Some (js "1")) false (EditNote.mk (js " ") (js " x ")) [] true)
    (js "1") (js " ") (js " x ") 9 (js "later")
    eq_refl eq_refl eq_refl eq_refl eq_refl)) 1%nat _ eq_refl).
Defined.

(** C6 as worded fails on a submission that is blank after trimming: the
    selected note is present, yet its title does not become "(Untitled)",
    its content is kept and its lastEdited is not refreshed. *)
Lemma update_blank_counterexample :
  let note := Note.mk (js "1") (js "Groceries") (js "Milk") (js "t1") in
  let st := mkApp [note] 1 (Some (js "1")) false (EditNote.mk (js "  ") []) [] true in
  js "1" ∈ Note.id <$> notes st
  ∧ mainArea st = Form (editNote st)
  ∧ notes (run (CSave 9 (js "later")) st) = [note]
  ∧ notes (run (CSave 9 (js "later")) st)
      ≠ [Note.mk (js "1") (js "(Untitled)") [] (js "later")].
Proof.
  simpl. split_and!; [apply list_elem_of_here|reflexivity|reflexivity|discriminate].
Qed.

(** ** Deleting *)

Lemma handleDeleteNote_notes i st :
  notes (handleDeleteNote i st) = filter (λ n, Note.id n ≠ i) (notes st).
Proof. unfold handleDeleteNote. by case_bool_decide. Qed.

Lemma handleDeleteNote_isCreating i st : isCreating (handleDeleteNote i st) = false.
Proof. unfold handleDeleteNote. by case_bool_decide. Qed.

Lemma handleDeleteNote_editNote i st :
  editNote (handleDeleteNote i st) = editNote st.
Proof. unfold handleDeleteNote. by case_bool_decide. Qed.

Lemma handleDeleteNote_selectedId i st :
  selectedId (handleDeleteNote i st) =
    if bool_decide (selectedId st = Some i)
    then match filter (λ n, Note.id n ≠ i) (notes st) with
         | n :: _ => Some (Note.id n)
         | [] => None
         end
    else selectedId st.
Proof. unfold handleDeleteNote. by case_bool_decide. Qed.

Lemma run_CDelete i st :
  run (CDelete i) st = selectEffect (handleDeleteNote i st).
Proof.
  unfold run. apply afterRender_changed. simpl.
  unfold handleDeleteNote. case_bool_decide; simpl; lia.
Qed.

Lemma mainArea_no_notes st :
  notes st = [] → mainArea (selectEffect st) = NoNotes.
Proof.
  destruct st as [ns r sel cr ed q sb]; simpl. intros ->.
  unfold selectEffect; simpl. by destruct (truthy_id sel).
Qed.

(** C8. Deleting removes the notes with that id.  If the id was the
    selected one, the selection afterwards is the id of the first remaining
    note, or nothing, with the "no notes" view, when none remains.  If it
    was not, the handler leaves the selection as it was, and a selection
    that names a remaining note is still the selection after the effect. *)
Theorem delete_reselects (i : jsstring) (st : AppState) :
  let st' := run (CDelete i) st in
  notes st' = filter (λ n, Note.id n ≠ i) (notes st)
  ∧ (i ∉ Note.id <$> notes st')
  ∧ (selectedId st = Some i →
       selectedId st' = fmap Note.id (head (notes st')))
  ∧ (notes st' = [] → selectedId st' = None ∧ mainArea st' = NoNotes)
  ∧ (selectedId st ≠ Some i →
       selectedId (handleDeleteNote i st) = selectedId st)
  ∧ (∀ sel, selectedId st = Some sel → sel ≠ i → truthy sel = true →
       sel ∈ Note.id <$> notes st → selectedId st' = Some sel).
Proof.
  intros st'. unfold st'. rewrite run_CDelete.
  rewrite selectEffect_notes, selectEffect_selectedId, handleDeleteNote_notes,
    handleDeleteNote_selectedId.
  split_and!.
  - done.
  - intros (n & -> & [Hn _]%list_elem_of_filter)%list_elem_of_fmap. done.
  - intros Hs. rewrite (bool_decide_eq_true_2 _ Hs).
    destruct (filter _ (notes st)) as [|n ns]; simpl; [done|].
    by destruct (truthy (Note.id n)).
  - intros Hnil. rewrite Hnil. split; [done|].
    apply mainArea_no_notes. by rewrite handleDeleteNote_notes.
  - intros Hs. by rewrite (bool_decide_eq_false_2 _ Hs).
  - intros sel Hs Hne Ht (n & -> & Hn)%list_elem_of_fmap.
    rewrite bool_decide_eq_false_2 by congruence.
    assert (Hin : n ∈ filter (λ n, Note.id n ≠ i) (notes st))
      by by apply list_elem_of_filter.
    destruct (filter _ (notes st)) as [|m ms]; [by apply elem_of_nil in Hin|].
    rewrite Hs; simpl. by rewrite Ht.
Qed.

Lemma delete_reselects_witness :
  let A := Note.mk (js "1") (js "A") (js "a") (js "t1") in
  let B := Note.mk (js "2") (js "B") (js "b") (js "t2") in
  selectedId (run (CDelete (js "2"))
                (mkApp [B; A] 2 (Some (js "2")) false EditNote.blank [] true))
    = Some (js "1")
  ∧ selectedId (run (CDelete (js "2"))
                (mkApp [B; A] 2 (Some (js "1")) false EditNote.blank [] true))
    = Some (js "1").
Proof.
  intros A B. split.
  - exact (proj1 (proj2 (proj2 (delete_reselects (js "2")
      (mkApp [B; A] 2 (Some (js "2")) false EditNote.blank [] true)))) eq_refl).
  - refine (proj2 (proj2 (proj2 (proj2 (proj2 (delete_reselects (js "2")
      (mkApp [B; A] 2 (Some (js "1")) false EditNote.blank [] true))))))
      (js "1") eq_refl _ eq_refl _).
    + discriminate.
    + apply list_elem_of_fmap. exists A. split; [reflexivity|].
      apply list_elem_of_further, list_elem_of_here.
Defined.

Lemma run_CDelete_isCreating i st : isCreating (run (CDelete i) st) = false.
Proof.
  rewrite run_CDelete.
  pose proof (handleDeleteNote_isCreating i st) as H.
  destruct (handleDeleteNote i st) as [[|n ns] r sel cr ed q sb];
    unfold selectEffect; simpl in *; by destruct (truthy_id sel).
Qed.

(** While a note remains, deleting leaves the edit buffer as it was. *)
Lemma run_CDelete_editNote i st :
  notes (run (CDelete i) st) ≠ [] →
  editNote (run (CDelete i) st) = editNote st.
Proof.
  rewrite run_CDelete, selectEffect_notes.
  pose proof (handleDeleteNote_editNote i st) as H.
  destruct (handleDeleteNote i st) as [[|n ns] r sel cr ed q sb];
    unfold selectEffect; simpl in *; [done|]. by destruct (truthy_id sel).
Qed.

Lemma reachable_run_all cs st : reachable st → reachable (run_all cs st).
Proof.
  revert st. induction cs as [|c cs IH]; intros st Hst; [done|].
  apply IH. by constructor.
Qed.

(** C3, the code at the failing input.  With B selected and being edited,
    deleting B clears the creating flag and moves the selection to A, but
    the edit buffer still holds B's draft, so the form stays open, now on
    A, and the next save writes B's text into A. *)
Theorem delete_keeps_edit_buffer :
  reachable editing_B
  ∧ selectedId editing_B = Some (js "2")
  ∧ mainArea editing_B = Form (EditNote.mk (js "B") (js "b"))
  ∧ isCreating (run (CDelete (js "2")) editing_B) = false
  ∧ selectedId (run (CDelete (js "2")) editing_B) = Some (js "1")
  ∧ editNote (run (CDelete (js "2")) editing_B) = EditNote.mk (js "B") (js "b")
  ∧ mainArea (run (CDelete (js "2")) editing_B) = Form (EditNote.mk (js "B") (js "b"))
  ∧ notes (run (CSave 3 (js "1970-01-01T00:00:00.003Z"))
             (run (CDelete (js "2")) editing_B))
    = [Note.mk (js "1") (js "B") (js "b") (js "1970-01-01T00:00:00.003Z")].
Proof.
  split; [apply reachable_run_all; constructor|].
  split_and!; vm_compute; reflexivity.
Qed.

(** ** Titles are never empty *)

Lemma or_else_untitled t : or_else t untitled ≠ [].
Proof. unfold or_else. by destruct t. Qed.

Lemma handleSaveNote_titled now stamp st :
  titled (notes st) → titled (notes (handleSaveNote now stamp st)).
Proof.
  intros H.
  destruct (blank_input (EditNote.title (editNote st))
                        (EditNote.content (editNote st))) eqn:Hb.
  { by rewrite handleSaveNote_blank. }
  destruct (truthy_id (selectedId st) && negb (isCreating st)) eqn:Hu.
  - rewrite handleSaveNote_update by done; simpl.
    apply Forall_fmap. eapply Forall_impl; [exact H|].
    intros n Hn; simpl. case_bool_decide; [apply or_else_untitled|done].
  - rewrite handleSaveNote_create by done; simpl.
    constructor; [apply or_else_untitled|done].
Qed.

Lemma handler_titled c st :
  titled (notes st) → titled (notes (handler c st)).
Proof.
  intros H. destruct c; cbn [handler]; try done.
  - unfold handleEditNote. by destruct (currentNote st).
  - rewrite handleDeleteNote_notes. apply Forall_forall.
    intros n [_ Hn]%list_elem_of_filter. by eapply Forall_forall in H.
  - by apply handleSaveNote_titled.
  - by destruct name.
Qed.

(** C10. In every state reached from the empty collection by the
    component's commands, every note has a non-empty title. *)
Theorem reachable_titles_nonempty (st : AppState) :
  reachable st → ∀ n, n ∈ notes st → Note.title n ≠ [].
Proof.
  intros Hst. apply Forall_forall. fold (titled (notes st)).
  induction Hst as [w|c st Hst IH].
  - unfold mount. rewrite afterRender_notes. simpl. constructor.
  - rewrite run_notes. by apply handler_titled.
Qed.

Lemma reachable_titles_nonempty_witness :
  Note.title (Note.mk (js "1") (js "(Untitled)") (js "a") (js "t")) ≠ [].
Proof.
  apply (reachable_titles_nonempty
           (run_all [CAdd; CChange FContent (js "a"); CSave 1 (js "t")]
                    (mount [] 1024))).
  - apply reachable_run_all. constructor.
  - vm_compute. apply list_elem_of_here.
Defined.

(** ** Sequences of add calls *)

#[global] Instance toString_Inj : Inj (=) (=) toString.
Proof. intros a b. apply toString_inj. Qed.

Lemma add_notes call st :
  notes (add call st) =
    if accepted call then added_note call :: notes st else notes st.
Proof.
  destruct (accepted call) eqn:Hacc.
  - by rewrite add_accepted.
  - by apply add_rejected.
Qed.

Lemma add_all_notes calls st :
  notes (add_all calls st) =
    (added_note <$> reverse (filter (λ c, accepted c = true) calls)) ++ notes st.
Proof.
  revert st. induction calls as [|c calls IH]; intros st; [done|].
  change (add_all (c :: calls) st) with (add_all calls (add c st)).
  rewrite IH, add_notes, filter_cons.
  destruct (accepted c); simpl; [|done].
  by rewrite reverse_cons, fmap_app, <- app_assoc.
Qed.

(** C2, as the code has it.  After any sequence of add calls from the empty
    collection, the collection has one note per accepted call, newest
    first, and the id of each is the decimal text of the clock reading of
    its call; so the ids are pairwise distinct exactly when the clock
    readings of the accepted calls are. *)
Theorem add_all_ids (calls : list AddCall) (innerWidth : Z) :
  let st := add_all calls (mount [] innerWidth) in
  let kept := filter (λ c, accepted c = true) calls in
  length (notes st) = length kept
  ∧ Note.id <$> notes st = toString <$> reverse (add_now <$> kept)
  ∧ (NoDup (Note.id <$> notes st) ↔ NoDup (add_now <$> kept)).
Proof.
  intros st kept.
  assert (Hn : notes st = added_note <$> reverse kept).
  { unfold st. rewrite add_all_notes. unfold mount.
    rewrite afterRender_notes; simpl. by rewrite app_nil_r. }
  assert (Hid : Note.id <$> notes st = toString <$> reverse (add_now <$> kept)).
  { rewrite Hn, <- fmap_reverse, <- !list_fmap_compose. done. }
  split_and!.
  - by rewrite Hn, length_fmap, length_reverse.
  - done.
  - rewrite Hid, NoDup_fmap by apply _. by rewrite reverse_Permutation.
Qed.

Lemma add_all_ids_witness :
  NoDup (Note.id <$> notes (add_all
    [mkAdd (js "A") (js "a") 1700000000000 (js "2023-11-14T22:13:20.000Z");
     mkAdd (js " ") [] 1700000000500 (js "2023-11-14T22:13:20.500Z");
     mkAdd [] (js "b") 1700000001000 (js "2023-11-14T22:13:21.000Z")]
    (mount [] 1024))).
Proof.
  apply (proj2 (proj2 (add_all_ids _ 1024))).
  apply (bool_decide_unpack _). vm_compute. exact I.
Defined.

(** C2 as worded fails: two accepted add calls that read the same
    millisecond from the clock give their notes the same id. *)
Lemma add_same_millisecond_counterexample :
  let c1 := mkAdd (js "A") (js "a") 1700000000000 (js "2023-11-14T22:13:20.000Z") in
  let c2 := mkAdd (js "B") (js "b") 1700000000000 (js "2023-11-14T22:13:20.000Z") in
  accepted c1 = true ∧ accepted c2 = true
  ∧ Note.id <$> notes (add_all [c1; c2] (mount [] 1024))
    = [js "1700000000000"; js "1700000000000"]
  ∧ ¬ NoDup (Note.id <$> notes (add_all [c1; c2] (mount [] 1024))).
Proof.
  intros c1 c2.
  assert (H : Note.id <$> notes (add_all [c1; c2] (mount [] 1024))
              = [js "1700000000000"; js "1700000000000"]) by (vm_compute; reflexivity).
  split_and!; [reflexivity|reflexivity|exact H|].
  rewrite H. intros [Hin _]%NoDup_cons. apply Hin, list_elem_of_here.
Qed.

(** ** The sidebar filter *)

Lemma includes_occurs (s q : jsstring) : includes s q = true ↔ occurs q s.
Proof.
  induction s as [|a s IH]; simpl.
  - rewrite orb_false_r, bool_decide_eq_true. split.
    + intros [k Hk]. by exists [], k.
    + intros (pre & post & H). symmetry in H.
      apply app_eq_nil in H as [-> [-> ->]%app_eq_nil]. by exists [].
  - rewrite orb_true_iff, bool_decide_eq_true, IH. split.
    + intros [[k Hk] | (pre & post & ->)].
      * by exists [], k.
      * by exists (a :: pre), post.
    + intros ([|b pre] & post & H); simpl in H.
      * left. by exists post.
      * right. injection H as -> ->. by exists pre, post.
Qed.

Lemma filter_sublist_mono {A} (P : A → Prop) `{!∀ x, Decision (P x)} (l k : list A) :
  l `sublist_of` k → filter P l `sublist_of` filter P k.
Proof.
  induction 1 as [|x l k _ IH|x l k _ IH]; rewrite ?filter_cons.
  - done.
  - destruct (decide (P x)); [by apply sublist_skip|done].
  - destruct (decide (P x)); [by apply sublist_cons|done].
Qed.

Lemma filter_all {A} (P : A → Prop) `{!∀ x, Decision (P x)} (l : list A) :
  Forall P l → filter P l = l.
Proof.
  induction 1 as [|x l Hx _ IH]; [done|].
  by rewrite filter_cons, decide_True, IH.
Qed.

Lemma filteredNotes_lowered (toLowerCase : jsstring → jsstring) (st : AppState) :
  let shown := filteredNotes toLowerCase st in
  let hit n :=
    occurs (toLowerCase (search st)) (toLowerCase (Note.title n))
    ∨ occurs (toLowerCase (search st)) (toLowerCase (Note.content n)) in
  (search st = [] → shown = notes st)
  ∧ (search st ≠ [] →
       shown `sublist_of` notes st
       ∧ Forall hit shown
       ∧ (∀ n, n ∈ notes st → hit n → n ∈ shown)
       ∧ (∀ l, l `sublist_of` notes st → Forall hit l → l `sublist_of` shown)).
Proof.
  intros shown hit.
  assert (Hhit : ∀ n, matches toLowerCase (search st) n = true ↔ hit n).
  { intros n. unfold matches, hit. by rewrite orb_true_iff, !includes_occurs. }
  unfold shown, filteredNotes. split.
  - by intros ->.
  - intros Hq. destruct (search st) as [|a q] eqn:Eq; [done|]. simpl.
    split_and!.
    + apply sublist_filter.
    + apply Forall_forall. intros n [Hn _]%list_elem_of_filter. by apply Hhit.
    + intros n Hn Hh. apply list_elem_of_filter. split; [by apply Hhit|done].
    + intros l Hl Hall.
      rewrite <- (filter_all (λ n, matches toLowerCase (a :: q) n = true) l).
      * by apply filter_sublist_mono.
      * eapply Forall_impl; [exact Hall|]. intros n Hn. by apply Hhit.
Qed.

Lemma lower_latin_same (a b : N) : lower_latin a = lower_latin b ↔ same_letter a b.
Proof.
  unfold lower_latin, same_letter.
  destruct (N.leb_spec 0x41 a), (N.leb_spec a 0x5A),
           (N.leb_spec 0x41 b), (N.leb_spec b 0x5A); simpl; lia.
Qed.

Lemma lower_latin_fmap (w q : jsstring) :
  lower_latin <$> w = lower_latin <$> q ↔ Forall2 same_letter w q.
Proof.
  revert q. induction w as [|a w IH]; intros [|b q]; simpl.
  - split; [constructor|done].
  - split; [done|inversion 1].
  - split; [done|inversion 1].
  - split.
    + intros H. injection H as Hab Hwq.
      constructor; [by apply lower_latin_same|by apply IH].
    + inversion 1 as [|? ? ? ? Hab Hwq]; subst.
      f_equal; [by apply lower_latin_same|by apply IH].
Qed.

(** Containment between two texts mapped unit by unit is containment of a
    run that maps to the mapped query. *)
Lemma occurs_fmap (f : N → N) (q t : jsstring) :
  occurs (f <$> q) (f <$> t) ↔ ∃ pre w post, t = pre ++ w ++ post ∧ f <$> w = f <$> q.
Proof.
  split.
  - intros (pre' & post' & H).
    apply fmap_app_inv in H as (pre & rest & _ & Hrest & ->).
    symmetry in Hrest. apply fmap_app_inv in Hrest as (w & post & Hw & _ & ->).
    by exists pre, w, post.
  - intros (pre & w & post & -> & Hw).
    exists (f <$> pre), (f <$> post). by rewrite !fmap_app, Hw.
Qed.

Lemma lower_from_basic_latin (before s : jsstring) :
  basic_latin s → lower_from before s = lower_latin <$> s.
Proof.
  intros Hs. revert before.
  induction Hs as [|c s Hc _ IH]; intros before; [done|].
  cbn [lower_from fmap list_fmap]. f_equal; [|apply IH].
  unfold lower_unit, lower_latin.
  destruct (N.eqb_spec c 0x3A3); [lia|].
  destruct ((0x41 <=? c) && (c <=? 0x5A)); [done|].
  destruct (N.leb_spec 0x391 c); [lia|done].
Qed.

(** On Basic Latin text the runtime's mapping lower-cases letter by
    letter. *)
Lemma toLowerCase_js_basic_latin (s : jsstring) :
  basic_latin s → toLowerCase_js s = lower_latin <$> s.
Proof. apply lower_from_basic_latin. Qed.

(** C7, as the code has it.  With the empty query the sidebar shows the
    whole collection in its order.  With a non-empty query it shows the
    notes whose lower-cased title or content contains the lower-cased query,
    in the order of the collection: a subsequence of the collection, all of
    whose notes match, and which contains every subsequence of matching
    notes.  For a mapping that lower-cases Basic Latin text letter by
    letter, as the runtime's does, and a query and a note in Basic Latin,
    the note is shown exactly when its title or content contains the query
    up to the case of its letters. *)
Theorem filteredNotes_spec (toLowerCase : jsstring → jsstring) (st : AppState) :
  (∀ s, basic_latin s → toLowerCase s = lower_latin <$> s) →
  let shown := filteredNotes toLowerCase st in
  let hit n :=
    occurs (toLowerCase (search st)) (toLowerCase (Note.title n))
    ∨ occurs (toLowerCase (search st)) (toLowerCase (Note.content n)) in
  (search st = [] → shown = notes st)
  ∧ (search st ≠ [] →
       shown `sublist_of` notes st
       ∧ Forall hit shown
       ∧ (∀ n, n ∈ notes st → hit n → n ∈ shown)
       ∧ (∀ l, l `sublist_of` notes st → Forall hit l → l `sublist_of` shown))
  ∧ (search st ≠ [] → basic_latin (search st) →
       ∀ n, n ∈ notes st →
         basic_latin (Note.title n) → basic_latin (Note.content n) →
         (n ∈ shown ↔ contains_ignoring_case (search st) (Note.title n)
                      ∨ contains_ignoring_case (search st) (Note.content n))).
Proof.
  intros Hlow shown hit.
  destruct (filteredNotes_lowered toLowerCase st) as [H1 H2].
  split_and!; [exact H1|exact H2|].
  intros Hq Hbq n Hn Hbt Hbc.
  assert (Hhit : hit n ↔ contains_ignoring_case (search st) (Note.title n)
                         ∨ contains_ignoring_case (search st) (Note.content n)).
  { unfold hit, contains_ignoring_case.
    rewrite !Hlow by done. rewrite !occurs_fmap.
    split; intros [(pre & w & post & E & Hw) | (pre & w & post & E & Hw)];
      [left|right|left|right]; exists pre, w, post;
      (split; [exact E|]); by apply lower_latin_fmap. }
  rewrite <- Hhit. destruct (H2 Hq) as (_ & Hall & Hin & _).
  split; [|by apply Hin].
  intros Hs. eapply Forall_forall in Hall; [exact Hall|exact Hs].
Qed.

Lemma filteredNotes_spec_witness :
  let A := Note.mk (js "1") (js "Groceries") (js "Milk, eggs") (js "t1") in
  let B := Note.mk (js "2") (js "Work") (js "call Ann") (js "t2") in
  let st := mkApp [B; A] 2 None false EditNote.blank (js "mILK") true in
  A ∈ filteredNotes toLowerCase_js st
  ∧ (B ∈ filteredNotes toLowerCase_js st
     → contains_ignoring_case (js "mILK") (js "Work")
       ∨ contains_ignoring_case (js "mILK") (js "call Ann")).
Proof.
  intros A B st.
  assert (Hlat : ∀ s : jsstring, Is_true (bool_decide (Forall (λ c, c < 0x80) s))
                                 → basic_latin s)
    by (intros s; apply bool_decide_unpack).
  assert (Hq : basic_latin (search st)) by (apply Hlat; vm_compute; exact I).
  pose proof (proj2 (proj2 (filteredNotes_spec toLowerCase_js st
                              toLowerCase_js_basic_latin))
                ltac:(discriminate) Hq) as H.
  split.
  - apply (H A).
    + apply list_elem_of_further, list_elem_of_here.
    + apply Hlat; vm_compute; exact I.
    + apply Hlat; vm_compute; exact I.
    + right. exists [], (js "Milk"), (js ", eggs"). split; [reflexivity|].
      repeat constructor; unfold same_letter; vm_compute; intuition congruence.
  - apply (H B).
    + apply list_elem_of_here.
    + apply Hlat; vm_compute; exact I.
    + apply Hlat; vm_compute; exact I.
Defined.

(** C7 as worded fails: lower-casing depends on context (a capital sigma
    that ends a word becomes the final small sigma), so a note whose title
    contains the query letter for letter is left out. *)
Lemma filter_final_sigma_counterexample :
  search searching_sigma = [0x391; 0x3A3]
  ∧ (Note.title <$> notes searching_sigma) = [[0x391; 0x3A3; 0x391]]
  ∧ (∀ n, n ∈ notes searching_sigma →
       occurs (search searching_sigma) (Note.title n)
       ∧ contains_ignoring_case (search searching_sigma) (Note.title n))
  ∧ toLowerCase_js [0x391; 0x3A3] = [0x3B1; 0x3C2]
  ∧ toLowerCase_js [0x391; 0x3A3; 0x391] = [0x3B1; 0x3C3; 0x3B1]
  ∧ filteredNotes toLowerCase_js searching_sigma = [].
Proof.
  split_and!; try (vm_compute; reflexivity).
  intros n Hn.
  assert (Hs : notes searching_sigma =
    [Note.mk (js "1") [0x391; 0x3A3; 0x391] [] (js "1970-01-01T00:00:00.001Z")])
    by (vm_compute; reflexivity).
  rewrite Hs in Hn. apply list_elem_of_singleton in Hn as ->.
  change (search searching_sigma) with [0x391; 0x3A3]. simpl.
  split.
  - by exists [], [0x391].
  - exists [], [0x391; 0x3A3], [0x391]. split; [done|].
    repeat constructor; by left.
Qed.

(** ** JSON: what [stringify] writes, [parse] reads back *)

Ltac cmp :=
  repeat match goal with
    | |- context [N.eqb ?a ?b] => destruct (N.eqb_spec a b)
    | |- context [N.leb ?a ?b] => destruct (N.leb_spec a b)
    | |- context [N.ltb ?a ?b] => destruct (N.ltb_spec a b)
    end.

Lemma hex_value_digit (d : N) : d < 16 → hex_value (hex_digit d) = Some d.
Proof.
  intros Hd. unfold hex_value, hex_digit.
  cmp; simpl; try lia; f_equal; lia.
Qed.

Lemma hex_digits_value (c : N) :
  c < 65536 →
  (((0 * 16 + c / 4096 mod 16) * 16 + c / 256 mod 16) * 16 + c / 16 mod 16) * 16
    + c mod 16 = c.
Proof.
  intros Hc.
  assert (H0 := N.div_mod c 16 ltac:(lia)).
  assert (H1 := N.div_mod (c / 16) 16 ltac:(lia)).
  assert (H2 := N.div_mod (c / 256) 16 ltac:(lia)).
  replace (c / 16 / 16) with (c / 256) in H1
    by (rewrite N.Div0.div_div; reflexivity).
  replace (c / 256 / 16) with (c / 4096) in H2
    by (rewrite N.Div0.div_div; reflexivity).
  assert (c / 4096 < 16) by (apply N.Div0.div_lt_upper_bound; lia).
  rewrite (N.mod_small (c / 4096) 16) by done.
  lia.
Qed.

(** A code unit that ends no token moves the lexer and emits nothing. *)
Lemma lex_silent st c st' (r : jsstring) :
  lex_step st c = Some (st', []) → lex st (c :: r) = lex st' r.
Proof. simpl. intros ->. by destruct (lex st' r). Qed.

Lemma lex_emit st c t (r : jsstring) :
  lex_step st c = Some (LStart, [t]) →
  lex st (c :: r) = (λ ts, t :: ts) <$> lex LStart r.
Proof. simpl. by intros ->. Qed.

Lemma lex_step_hex (acc : jsstring) (n : nat) (v d : N) :
  d < 16 →
  lex_step (LUnicode acc n v) (hex_digit d) =
    if bool_decide (n = 3%nat) then Some (LString ((v * 16 + d) :: acc), [])
    else Some (LUnicode acc (S n) (v * 16 + d), []).
Proof. intros Hd. simpl. by rewrite hex_value_digit. Qed.

(** A [\uXXXX] escape is read back as the code unit it stands for. *)
Lemma lex_unicode_escape (c : N) (acc rest : jsstring) :
  c < 65536 →
  lex (LString acc) (unicode_escape c ++ rest) = lex (LString (c :: acc)) rest.
Proof.
  intros Hc. unfold unicode_escape.
  cbn [app].
  rewrite (lex_silent _ _ (LEscape acc)) by reflexivity.
  rewrite (lex_silent _ _ (LUnicode acc 0 0)) by reflexivity.
  rewrite (lex_silent _ _ (LUnicode acc 1 (0 * 16 + c / 4096 mod 16)))
    by (by rewrite lex_step_hex by (by apply N.mod_lt)).
  rewrite (lex_silent _ _ (LUnicode acc 2
             ((0 * 16 + c / 4096 mod 16) * 16 + c / 256 mod 16)))
    by (by rewrite lex_step_hex by (by apply N.mod_lt)).
  rewrite (lex_silent _ _ (LUnicode acc 3
             (((0 * 16 + c / 4096 mod 16) * 16 + c / 256 mod 16) * 16
              + c / 16 mod 16)))
    by (by rewrite lex_step_hex by (by apply N.mod_lt)).
  rewrite (lex_silent _ _ (LString (c :: acc))); [done|].
  rewrite lex_step_hex by (by apply N.mod_lt).
  by rewrite hex_digits_value.
Qed.

Lemma surrogate_bound (c : N) :
  is_high_surrogate c || is_low_surrogate c = true → c < 65536.
Proof. unfold is_high_surrogate, is_low_surrogate. cmp; simpl; try done; lia. Qed.

(** One quoted code unit is read back as itself. *)
Lemma lex_quote_unit (c : N) (acc rest : jsstring) :
  lex (LString acc) (quote_unit c ++ rest) = lex (LString (c :: acc)) rest.
Proof.
  unfold quote_unit.
  destruct (N.eqb_spec c 0x08) as [->|?]; [simpl; by destruct (lex _ rest)|].
  destruct (N.eqb_spec c 0x09) as [->|?]; [simpl; by destruct (lex _ rest)|].
  destruct (N.eqb_spec c 0x0A) as [->|?]; [simpl; by destruct (lex _ rest)|].
  destruct (N.eqb_spec c 0x0C) as [->|?]; [simpl; by destruct (lex _ rest)|].
  destruct (N.eqb_spec c 0x0D) as [->|?]; [simpl; by destruct (lex _ rest)|].
  destruct (N.eqb_spec c 0x22) as [->|?]; [simpl; by destruct (lex _ rest)|].
  destruct (N.eqb_spec c 0x5C) as [->|?]; [simpl; by destruct (lex _ rest)|].
  destruct (N.ltb_spec c 0x20).
  - apply lex_unicode_escape. lia.
  - apply lex_silent. simpl.
    rewrite (proj2 (N.eqb_neq c 0x22)), (proj2 (N.eqb_neq c 0x5C)) by done.
    by rewrite (proj2 (N.ltb_ge c 0x20)).
Qed.

Lemma lex_surrogate (c : N) (acc rest : jsstring) :
  is_high_surrogate c || is_low_surrogate c = true →
  lex (LString acc) (c :: rest) = lex (LString (c :: acc)) rest.
Proof.
  intros H. apply lex_silent. simpl. revert H.
  unfold is_high_surrogate, is_low_surrogate. cmp; simpl; try done; lia.
Qed.

(** The body of a quoted string, up to its closing quote. *)
Lemma lex_quote_units (s acc rest : jsstring) :
  lex (LString acc) (quote_units s ++ 0x22 :: rest) =
    (λ ts, TString (rev acc ++ s) :: ts) <$> lex LStart rest.
Proof.
  remember (length s) as k eqn:Hk. revert s acc Hk.
  induction (lt_wf k) as [k _ IH]. intros s acc ->.
  assert (IH' : ∀ s' acc', (length s' < length s)%nat →
    lex (LString acc') (quote_units s' ++ 0x22 :: rest) =
      (λ ts, TString (rev acc' ++ s') :: ts) <$> lex LStart rest)
    by (intros; eapply IH; [eassumption|reflexivity]).
  clear IH. destruct s as [|c r]; cbn [quote_units].
  - rewrite app_nil_r. by apply lex_emit.
  - destruct (is_high_surrogate c) eqn:Hh.
    + destruct r as [|d r'].
      * rewrite lex_unicode_escape by (apply surrogate_bound; by rewrite Hh).
        by rewrite (lex_emit _ _ (TString (rev (c :: acc)))) by reflexivity.
      * destruct (is_low_surrogate d) eqn:Hl.
        -- cbn [app]. rewrite !lex_surrogate by (by rewrite ?Hh, ?Hl, ?orb_true_r).
           rewrite IH' by (simpl; lia). simpl. by rewrite <- !app_assoc.
        -- rewrite <- app_assoc.
           rewrite lex_unicode_escape by (apply surrogate_bound; by rewrite Hh).
           rewrite IH' by (simpl; lia). simpl. by rewrite <- app_assoc.
    + destruct (is_low_surrogate c) eqn:Hl; rewrite <- app_assoc.
      * rewrite lex_unicode_escape
          by (apply surrogate_bound; by rewrite Hl, orb_true_r).
        rewrite IH' by (simpl; lia). simpl. by rewrite <- app_assoc.
      * rewrite lex_quote_unit.
        rewrite IH' by (simpl; lia). simpl. by rewrite <- app_assoc.
Qed.

Lemma lexes_cons (s1 s2 : jsstring) (t : token) (ts : list token) :
  lexes s1 [t] → lexes s2 ts → lexes (s1 ++ s2) (t :: ts).
Proof.
  intros H1 H2 rest. rewrite <- app_assoc, H1, H2.
  by destruct (lex LStart rest).
Qed.

Lemma lexes_quote (s : jsstring) : lexes (quote s) [TString s].
Proof.
  intros rest. unfold quote. cbn [app].
  rewrite (lex_silent _ _ (LString [])) by reflexivity.
  rewrite <- app_assoc. cbn [app]. by rewrite lex_quote_units.
Qed.

Lemma stringify_note (n : Note.t) :
  JSON_stringify (note_value n) =
    [0x7B] ++ quote (js "id") ++ [0x3A] ++ quote (Note.id n) ++ [0x2C]
      ++ quote (js "title") ++ [0x3A] ++ quote (Note.title n) ++ [0x2C]
      ++ quote (js "content") ++ [0x3A] ++ quote (Note.content n) ++ [0x2C]
      ++ quote (js "lastEdited") ++ [0x3A] ++ quote (Note.lastEdited n) ++ [0x7D].
Proof.
  unfold note_value. cbn [JSON_stringify map join_comma fst snd].
  repeat (rewrite <- app_assoc; cbn [app]). reflexivity.
Qed.

Lemma lexes_note (n : Note.t) : lexes (JSON_stringify (note_value n)) (note_tokens n).
Proof.
  rewrite stringify_note. unfold note_tokens.
  repeat (apply lexes_cons; [first [apply lexes_quote | by intros ?]|]).
  by intros ?.
Qed.

Lemma join_comma_cons (p : jsstring) (ps : list jsstring) :
  join_comma (p :: ps) = p ++ more_text ps.
Proof.
  revert p. induction ps as [|q ps IH]; intros p.
  - by rewrite app_nil_r.
  - change (join_comma (p :: q :: ps)) with (p ++ 0x2C :: join_comma (q :: ps)).
    by rewrite IH.
Qed.

Lemma lexes_more (ns : list Note.t) :
  ∀ rest,
    lex LStart (more_text (map JSON_stringify (note_value <$> ns)) ++ rest) =
      (more_tokens ns ++.) <$> lex LStart rest.
Proof.
  induction ns as [|n ns IH]; intros rest.
  - simpl. by destruct (lex LStart rest).
  - cbn [fmap list_fmap map more_text more_tokens app].
    rewrite (lex_emit _ _ TComma) by reflexivity.
    rewrite <- app_assoc, lexes_note, IH.
    destruct (lex LStart rest); simpl; [|done]. by rewrite <- ?app_assoc.
Qed.

(** The persisted text lexes to the tokens of the notes. *)
Lemma lex_persist (ns : list Note.t) :
  lex LStart (persist ns) = Some (notes_tokens ns).
Proof.
  unfold persist, notes_value. cbn [JSON_stringify].
  destruct ns as [|n ns]; [done|].
  cbn [fmap list_fmap map]. rewrite join_comma_cons.
  rewrite (lex_emit _ _ TLBracket) by reflexivity.
  rewrite <- app_assoc, lexes_note, lexes_more. simpl.
  by rewrite <- ?app_assoc.
Qed.

Lemma parses_note (n : Note.t) : parses (note_tokens n) (note_value n).
Proof. intros stack rest. reflexivity. Qed.

Lemma parse_more (ns : list Note.t) :
  ∀ items stack rest,
    parse_tokens (PArrayNext items stack) (more_tokens ns ++ TRBracket :: rest) =
      parse_tokens (deliver (JArray (rev items ++ (note_value <$> ns))) stack) rest.
Proof.
  induction ns as [|n ns IH]; intros items stack rest.
  - simpl. by rewrite app_nil_r.
  - cbn [more_tokens app parse_tokens parse_step].
    rewrite <- app_assoc, parses_note. cbn [deliver].
    rewrite IH. simpl. by rewrite <- ?app_assoc.
Qed.

Lemma parse_notes_tokens (ns : list Note.t) :
  parse_tokens (PValue []) (notes_tokens ns) = Some (PDone (notes_value ns)).
Proof.
  destruct ns as [|n ns]; [done|].
  unfold notes_tokens. cbn [parse_tokens parse_step value_step].
  change (parse_tokens (PArrayOpen []) (note_tokens n ++ more_tokens ns ++ [TRBracket]))
    with (parse_tokens (PValue [InArray []]) (note_tokens n ++ more_tokens ns ++ [TRBracket])).
  rewrite parses_note. cbn [deliver]. by rewrite parse_more.
Qed.

Lemma parse_persist (ns : list Note.t) :
  JSON_parse (persist ns) = Returned (notes_value ns).
Proof. unfold JSON_parse. by rewrite lex_persist, parse_notes_tokens. Qed.

Lemma note_value_inj (a b : Note.t) : note_value a = note_value b → a = b.
Proof. destruct a, b. unfold note_value; simpl. by intros [= -> -> -> ->]. Qed.

Lemma notes_value_inj (ns ms : list Note.t) :
  notes_value ns = notes_value ms → ns = ms.
Proof.
  unfold notes_value. intros [= H]. revert ms H.
  induction ns as [|n ns IH]; intros [|m ms] H; try done.
  change (note_value n :: (note_value <$> ns)
            = note_value m :: (note_value <$> ms)) in H.
  assert (Hn : note_value n = note_value m) by congruence.
  assert (Hns : note_value <$> ns = note_value <$> ms) by congruence.
  f_equal; [by apply note_value_inj|by apply IH].
Qed.

(** C9. What the persistence effect writes for a collection of notes,
    [load] reads back as that collection: the same notes, field for field,
    in the same order. *)
Theorem load_persist (ns : list Note.t) :
  load (Some (persist ns)) = Returned (notes_value ns)
  ∧ (∀ ms, load (Some (persist ns)) = Returned (notes_value ms) → ms = ns)
  ∧ (∀ st, notes st = ns → load (storage_after st) = Returned (notes_value ns)).
Proof.
  assert (H : load (Some (persist ns)) = Returned (notes_value ns)).
  { unfold load. rewrite parse_persist. by destruct ns. }
  split_and!; [done| |].
  - rewrite H. intros ms Hm. symmetry. apply notes_value_inj. congruence.
  - intros st <-. exact H.
Qed.

Lemma load_persist_witness :
  let ns := [Note.mk (js "1700000000000") (js "Groceries")
               (0x22 :: 0x5C :: 0x0A :: 0xD83D :: 0xDE00 :: 0xDC00 :: js "Milk, eggs")
               (js "2023-11-14T22:13:20.000Z")] in
  load (storage_after (mkApp ns 1 None false EditNote.blank [] true))
  = Returned (notes_value ns).
Proof.
  intros ns.
  exact (proj2 (proj2 (load_persist ns))
           (mkApp ns 1 None false EditNote.blank [] true) eq_refl).
Defined.

(** ** Loading *)

Lemma JSON_parse_empty : JSON_parse [] = Thrown SyntaxError.
Proof. reflexivity. Qed.

(** C1, as the code has it.  [load] yields the empty collection when the
    key is absent or holds the empty text, and the stored collection when
    the text was written by the persistence effect.  On any other text it
    is [JSON.parse]: the parsed value when the text is JSON, and a
    SyntaxError raised to the caller when it is not; nothing else is ever
    raised. *)
Theorem load_cases (saved : option jsstring) :
  (saved = None ∨ saved = Some [] → load saved = Returned (JArray []))
  ∧ (∀ ns, saved = Some (persist ns) → load saved = Returned (notes_value ns))
  ∧ (∀ text, saved = Some text → text ≠ [] → load saved = JSON_parse text)
  ∧ (∀ text, saved = Some text → text ≠ [] →
       JSON_parse text = Thrown SyntaxError → load saved = Thrown SyntaxError)
  ∧ (∀ e, load saved = Thrown e →
       e = SyntaxError ∧ ∃ text, saved = Some text ∧ text ≠ []
                                 ∧ JSON_parse text = Thrown SyntaxError).
Proof.
  split_and!.
  - by intros [-> | ->].
  - intros ns ->. unfold load. rewrite parse_persist. by destruct ns.
  - intros [|c text] -> Hne; done.
  - intros [|c text] -> Hne Hp; [done|]. exact Hp.
  - intros [] H. split; [done|].
    destruct saved as [[|c text]|]; try done.
    exists (c :: text). split_and!; done.
Qed.

Lemma load_cases_witness :
  load (Some (js "[1, 2")) = Thrown SyntaxError
  ∧ load (Some (js "null")) = JSON_parse (js "null")
  ∧ load (Some []) = Returned (JArray []).
Proof.
  split_and!.
  - exact (proj1 (proj2 (proj2 (proj2 (load_cases (Some (js "[1, 2"))))))
             (js "[1, 2") eq_refl ltac:(discriminate) eq_refl).
  - exact (proj1 (proj2 (proj2 (load_cases (Some (js "null")))))
             (js "null") eq_refl ltac:(discriminate)).
  - exact (proj1 (load_cases (Some [])) (or_intror eq_refl)).
Defined.

(** C1 as worded fails: a stored text that is not JSON makes [load] raise
    instead of yielding the empty collection, and a stored JSON text that is
    not an array of notes is returned as it is. *)
Lemma load_malformed_counterexample :
  JSON_parse (js "{oops") = Thrown SyntaxError
  ∧ load (Some (js "{oops")) = Thrown SyntaxError
  ∧ load (Some (js "{oops")) ≠ Returned (notes_value [])
  ∧ load (Some (js "null")) = Returned JNull
  ∧ (∀ ns, load (Some (js "null")) ≠ Returned (notes_value ns)).
Proof. split_and!; try done. Qed.

(** * Further properties of the component *)

(** ** Trimming *)

Lemma trimStart_nil (s : jsstring) : trimStart s = [] ↔ whitespace_only s.
Proof.
  unfold whitespace_only. induction s as [|c s IH]; simpl.
  - split; [constructor|done].
  - destruct (isWhiteSpace c) eqn:E.
    + rewrite IH. split; [by constructor|by inversion 1].
    + split; [done|]. inversion 1; congruence.
Qed.

Lemma trimStart_split (s : jsstring) :
  ∃ pre, s = pre ++ trimStart s ∧ whitespace_only pre.
Proof.
  induction s as [|c s (pre & Hs & Hpre)]; simpl.
  - exists []. split; [done|constructor].
  - destruct (isWhiteSpace c) eqn:E.
    + exists (c :: pre). split; [simpl; by rewrite <- Hs|by constructor].
    + exists []. split; [done|constructor].
Qed.

Lemma trimStart_clean (s : jsstring) : clean_start (trimStart s).
Proof.
  induction s as [|c s IH]; simpl; [done|].
  by destruct (isWhiteSpace c) eqn:E.
Qed.

Lemma trimStart_fixed (s : jsstring) : clean_start s → trimStart s = s.
Proof. destruct s as [|c s]; simpl; [done|]. by intros ->. Qed.

Lemma trim_nil (s : jsstring) : trim s = [] ↔ whitespace_only s.
Proof.
  unfold trim, trimEnd. split.
  - intros H. apply (f_equal (@rev N)) in H. rewrite rev_involutive in H.
    simpl in H. apply trimStart_nil in H.
    assert (Hw : whitespace_only (trimStart s)).
    { unfold whitespace_only in *. apply Forall_rev in H.
      by rewrite rev_involutive in H. }
    pose proof (trimStart_clean s) as Hc.
    destruct (trimStart s) as [|c u] eqn:E.
    + by apply trimStart_nil.
    + inversion Hw; simpl in Hc; congruence.
  - intros H%trimStart_nil. by rewrite H.
Qed.

Lemma trim_idemp (s : jsstring) : trim (trim s) = trim s.
Proof.
  unfold trim, trimEnd.
  set (u := trimStart s).
  destruct (trimStart_split (rev u)) as (pre & Hu & _).
  set (v := trimStart (rev u)) in *.
  assert (Hcs : clean_start (rev v)).
  { apply (f_equal (@rev N)) in Hu.
    rewrite rev_involutive, rev_app_distr in Hu.
    pose proof (trimStart_clean s) as Hc. fold u in Hc. rewrite Hu in Hc.
    by destruct (rev v). }
  rewrite (trimStart_fixed (rev v)) by done.
  rewrite rev_involutive.
  by rewrite (trimStart_fixed v) by apply trimStart_clean.
Qed.

(** X1. A submission is rejected exactly when its title and its content
    consist of white space only (or are empty): these are the submissions
    [handleSaveNote] hands back the state for, untouched. *)
Theorem save_rejected_iff_whitespace (now : Z) (stamp : jsstring) (st : AppState) :
  handleSaveNote now stamp st = st
  ↔ whitespace_only (EditNote.title (editNote st))
    ∧ whitespace_only (EditNote.content (editNote st)).
Proof.
  rewrite <- !trim_nil.
  destruct (blank_input (EditNote.title (editNote st))
                        (EditNote.content (editNote st))) eqn:Hb.
  - split; [|intros _; by apply handleSaveNote_blank].
    intros _. unfold blank_input in Hb.
    by destruct (trim (EditNote.title _)), (trim (EditNote.content _)).
  - split.
    + intros H. apply (f_equal notesRef) in H. revert H.
      destruct (truthy_id (selectedId st) && negb (isCreating st)) eqn:Hu.
      * rewrite handleSaveNote_update by done. simpl. lia.
      * rewrite handleSaveNote_create by done. simpl. lia.
    + intros [Ht Hc]. unfold blank_input in Hb. by rewrite Ht, Hc in Hb.
Qed.

Lemma save_rejected_iff_whitespace_witness :
  handleSaveNote 5 (js "t")
    (mkApp [] 0 None true (EditNote.mk (js "  ") [0x0A; 0xA0]) [] true)
  = mkApp [] 0 None true (EditNote.mk (js "  ") [0x0A; 0xA0]) [] true.
Proof.
  apply (proj2 (save_rejected_iff_whitespace 5 (js "t")
    (mkApp [] 0 None true (EditNote.mk (js "  ") [0x0A; 0xA0]) [] true))).
  split; simpl; repeat constructor.
Defined.

(** ** What a save writes *)

Lemma title_normal (t : jsstring) :
  trimmed (or_else (trim t) untitled) ∧ or_else (trim t) untitled ≠ [].
Proof.
  split; [|apply or_else_untitled].
  unfold or_else, trimmed. destruct (trim t) eqn:E; simpl; [reflexivity|].
  rewrite <- E. apply trim_idemp.
Qed.

Lemma handleSaveNote_normal now stamp st :
  Forall normal_note (notes st) →
  Forall normal_note (notes (handleSaveNote now stamp st)).
Proof.
  intros H.
  destruct (blank_input (EditNote.title (editNote st))
                        (EditNote.content (editNote st))) eqn:Hb.
  { by rewrite handleSaveNote_blank. }
  destruct (truthy_id (selectedId st) && negb (isCreating st)) eqn:Hu.
  - rewrite handleSaveNote_update by done; simpl.
    apply Forall_fmap. eapply Forall_impl; [exact H|].
    intros n (Ht & Hc & Hne & Hid); simpl. case_bool_decide; [|done].
    destruct (title_normal (EditNote.title (editNote st))).
    split_and!; simpl; [done|apply trim_idemp|done|done].
  - rewrite handleSaveNote_create by done; simpl.
    constructor; [|done].
    destruct (title_normal (EditNote.title (editNote st))).
    split_and!; simpl; [done|apply trim_idemp|done|by eexists].
Qed.

Lemma handler_normal c st :
  Forall normal_note (notes st) → Forall normal_note (notes (handler c st)).
Proof.
  intros H. destruct c; cbn [handler]; try done.
  - unfold handleEditNote. by destruct (currentNote st).
  - rewrite handleDeleteNote_notes. apply Forall_forall.
    intros n [_ Hn]%list_elem_of_filter. by eapply Forall_forall in H.
  - by apply handleSaveNote_normal.
  - by destruct name.
Qed.

Lemma reachable_normal (st : AppState) :
  reachable st → Forall normal_note (notes st).
Proof.
  induction 1 as [w|c st Hst IH].
  - unfold mount. rewrite afterRender_notes. simpl. constructor.
  - rewrite run_notes. by apply handler_normal.
Qed.

(** X2. Every note of a collection built by the component from the empty
    one is stored trimmed: trimming its title or its content again changes
    nothing, and its id is the decimal text of a clock reading (so it is
    never empty). *)
Theorem reachable_notes_normal (st : AppState) :
  reachable st →
  ∀ n, n ∈ notes st →
    trim (Note.title n) = Note.title n
    ∧ trim (Note.content n) = Note.content n
    ∧ (∃ z, Note.id n = toString z)
    ∧ truthy (Note.id n) = true.
Proof.
  intros Hst. pose proof (reachable_normal st Hst) as H.
  intros n Hn. eapply Forall_forall in H; [|exact Hn].
  destruct H as (Ht & Hc & _ & z & Hz).
  split_and!; [done|done|by exists z|]. rewrite Hz. apply toString_truthy.
Qed.

Lemma reachable_notes_normal_witness :
  trim (js "Milk, eggs") = js "Milk, eggs".
Proof.
  refine (proj1 (proj2 (reachable_notes_normal
    (run_all [CAdd; CChange FContent (js "  Milk, eggs "); CSave 1 (js "t")]
             (mount [] 1024)) _
    (Note.mk (js "1") (js "(Untitled)") (js "Milk, eggs") (js "t")) _))).
  - apply reachable_run_all. constructor.
  - vm_compute. apply list_elem_of_here.
Defined.

(** ** Editing *)

Lemma currentNote_Some st n :
  currentNote st = Some n → n ∈ notes st ∧ selectedId st = Some (Note.id n).
Proof.
  unfold currentNote. destruct (selectedId st) as [sel|]; [|done].
  destruct (list_find _ (notes st)) as [[i m]|] eqn:E; [|done].
  simpl. intros [= ->]. apply list_find_Some in E as (Hi & -> & _).
  split; [by eapply list_elem_of_lookup_2|done].
Qed.

Lemma run_CEdit st : run CEdit st = handleEditNote st.
Proof.
  apply run_unchanged_deps; simpl; unfold handleEditNote;
    by destruct (currentNote st).
Qed.

(** X3. The Edit button copies the current note into the edit buffer and
    leaves everything else alone.  The form opens on that copy when the
    note's title and its id are both non-empty; a current note with an empty
    title or an empty id stays in view mode, because the form is shown for a
    truthy selection on a non-empty buffer title. *)
Theorem edit_opens_form (st : AppState) (n : Note.t) :
  currentNote st = Some n →
  editNote (run CEdit st) = EditNote.mk (Note.title n) (Note.content n)
  ∧ notes (run CEdit st) = notes st
  ∧ selectedId (run CEdit st) = selectedId st
  ∧ mainArea (run CEdit st) =
      if bool_decide (Note.title n = []) || negb (truthy (Note.id n))
      then ViewNote n
      else Form (EditNote.mk (Note.title n) (Note.content n)).
Proof.
  intros Hcur. rewrite run_CEdit.
  destruct (currentNote_Some _ _ Hcur) as [_ Hsel].
  assert (Hst : handleEditNote st =
    setEditNote (EditNote.mk (Note.title n) (Note.content n))
                (setIsCreating false st))
    by (unfold handleEditNote; by rewrite Hcur).
  rewrite Hst. split_and!; try done.
  assert (Hc : currentNote (setEditNote (EditNote.mk (Note.title n) (Note.content n))
                              (setIsCreating false st)) = Some n).
  { rewrite <- Hcur. unfold currentNote. simpl. by rewrite Hsel. }
  unfold mainArea. rewrite Hc. simpl. rewrite Hsel; simpl.
  destruct (truthy (Note.id n)); simpl.
  - rewrite orb_false_r. by case_bool_decide.
  - by rewrite orb_true_r.
Qed.

Lemma edit_opens_form_witness :
  mainArea (run CEdit (mkApp [Note.mk (js "1") [] (js "a") (js "t")] 1
                             (Some (js "1")) false EditNote.blank [] true))
  = ViewNote (Note.mk (js "1") [] (js "a") (js "t"))
  ∧ mainArea (run CEdit (mkApp [Note.mk [] (js "E") (js "a") (js "t")] 1
                               (Some []) false EditNote.blank [] true))
    = ViewNote (Note.mk [] (js "E") (js "a") (js "t"))
  ∧ mainArea (run CEdit (mkApp [Note.mk (js "1") (js "E") (js "a") (js "t")] 1
                               (Some (js "1")) false EditNote.blank [] true))
    = Form (EditNote.mk (js "E") (js "a")).
Proof.
  split_and!.
  - exact (proj2 (proj2 (proj2 (edit_opens_form
      (mkApp [Note.mk (js "1") [] (js "a") (js "t")] 1
             (Some (js "1")) false EditNote.blank [] true)
      (Note.mk (js "1") [] (js "a") (js "t")) eq_refl)))).
  - exact (proj2 (proj2 (proj2 (edit_opens_form
      (mkApp [Note.mk [] (js "E") (js "a") (js "t")] 1
             (Some []) false EditNote.blank [] true)
      (Note.mk [] (js "E") (js "a") (js "t")) eq_refl)))).
  - exact (proj2 (proj2 (proj2 (edit_opens_form
      (mkApp [Note.mk (js "1") (js "E") (js "a") (js "t")] 1
             (Some (js "1")) false EditNote.blank [] true)
      (Note.mk (js "1") (js "E") (js "a") (js "t")) eq_refl)))).
Defined.

(** X4. In a state the component reached from the empty collection,
    pressing Edit on the current note and saving the form untouched rewrites
    nothing but time stamps: every note with the selected id takes the
    current note's title and content, which the current note already has,
    and the new lastEdited; the other notes and the order stay. *)
Theorem edit_then_save (st : AppState) (n : Note.t) (now : Z) (stamp : jsstring) :
  reachable st → currentNote st = Some n →
  notes (run (CSave now stamp) (run CEdit st)) =
    (λ m, if bool_decide (Note.id m = Note.id n)
          then Note.mk (Note.id m) (Note.title n) (Note.content n) stamp
          else m) <$> notes st.
Proof.
  intros Hst Hcur.
  destruct (currentNote_Some _ _ Hcur) as [Hin Hsel].
  pose proof (reachable_normal st Hst) as Hall.
  eapply Forall_forall in Hall; [|exact Hin].
  destruct Hall as (Ht & Hc & Hne & z & Hz).
  assert (Hid : truthy (Note.id n) = true) by (rewrite Hz; apply toString_truthy).
  unfold trimmed in Ht, Hc.
  rewrite run_CEdit.
  assert (Hed : handleEditNote st =
    setEditNote (EditNote.mk (Note.title n) (Note.content n))
                (setIsCreating false st))
    by (unfold handleEditNote; by rewrite Hcur).
  rewrite Hed, run_CSave_update; simpl.
  - rewrite Ht, Hc, Hsel.
    apply list_fmap_ext. intros _ m _.
    assert (or_else (Note.title n) untitled = Note.title n) as ->
      by (unfold or_else; by destruct (Note.title n)).
    destruct (decide (Note.id m = Note.id n)) as [E|E].
    + by rewrite !bool_decide_eq_true_2 by congruence.
    + by rewrite !bool_decide_eq_false_2 by congruence.
  - unfold blank_input. rewrite Ht. by destruct (Note.title n).
  - rewrite Hsel; simpl. by rewrite Hid.
Qed.

Lemma edit_then_save_witness :
  notes (run (CSave 9 (js "later")) (run CEdit editing_B))
  = [Note.mk (js "2") (js "B") (js "b") (js "later");
     Note.mk (js "1") (js "A") (js "a") (js "1970-01-01T00:00:00.001Z")].
Proof.
  refine (edit_then_save editing_B
    (Note.mk (js "2") (js "B") (js "b") (js "1970-01-01T00:00:00.002Z"))
    9 (js "later") _ eq_refl).
  apply reachable_run_all. constructor.
Defined.

(** ** What the commands leave alone *)

(** X5. A save never removes a note and never changes or reorders the ids
    already in the collection: the ids afterwards are the ids before, with
    at most the new note's id in front. *)
Theorem save_keeps_ids (now : Z) (stamp : jsstring) (st : AppState) :
  Note.id <$> notes (run (CSave now stamp) st) = Note.id <$> notes st
  ∨ Note.id <$> notes (run (CSave now stamp) st)
    = toString now :: (Note.id <$> notes st).
Proof.
  rewrite run_notes; cbn [handler].
  destruct (blank_input (EditNote.title (editNote st))
                        (EditNote.content (editNote st))) eqn:Hb.
  { left. by rewrite handleSaveNote_blank. }
  destruct (truthy_id (selectedId st) && negb (isCreating st)) eqn:Hu.
  - left. rewrite handleSaveNote_update by done; simpl.
    rewrite <- list_fmap_compose. apply list_fmap_ext.
    intros _ n _; simpl. by case_bool_decide.
  - right. by rewrite handleSaveNote_create by done.
Qed.

(** X6. Only a save and a delete change the collection: the add button, a
    selection, the Edit button, typing in the form, Cancel, the search box,
    the sidebar toggle and a resize leave every note as it is, also after
    the selection effect has run. *)
Theorem other_commands_keep_notes (c : command) (st : AppState) :
  (∀ now stamp, c ≠ CSave now stamp) → (∀ i, c ≠ CDelete i) →
  notes (run c st) = notes st.
Proof.
  intros Hs Hd. rewrite run_notes.
  destruct c; cbn [handler]; try done.
  - unfold handleEditNote. by destruct (currentNote st).
  - by destruct (Hd idToDelete).
  - by destruct (Hs now stamp).
  - by destruct name.
Qed.

Lemma other_commands_keep_notes_witness :
  notes (run (CChange FTitle (js "draft")) editing_B) = notes editing_B.
Proof.
  apply (other_commands_keep_notes (CChange FTitle (js "draft")) editing_B);
    discriminate.
Defined.

(** ** Deleting, again *)

Lemma run_CDelete_selectedId i st :
  selectedId (run (CDelete i) st) =
    match filter (λ n, Note.id n ≠ i) (notes st) with
    | [] => None
    | m :: _ =>
        if bool_decide (selectedId st = Some i) then Some (Note.id m)
        else if truthy_id (selectedId st) then selectedId st
             else Some (Note.id m)
    end.
Proof.
  rewrite run_CDelete, selectEffect_selectedId, handleDeleteNote_notes,
    handleDeleteNote_selectedId.
  destruct (filter _ (notes st)) as [|m ms]; [done|].
  case_bool_decide; [|done]. simpl. by destruct (truthy (Note.id m)).
Qed.

Lemma filter_id_twice (i : jsstring) (l : list Note.t) :
  filter (λ n, Note.id n ≠ i) (filter (λ n, Note.id n ≠ i) l)
  = filter (λ n, Note.id n ≠ i) l.
Proof. by apply list_filter_filter_l. Qed.

(** X7. Deleting is idempotent and tolerant of stale ids: a second delete
    of the same id changes neither the collection nor the selection, and
    deleting an id no note carries leaves the collection as it is. *)
Theorem delete_twice (i : jsstring) (st : AppState) :
  notes (run (CDelete i) (run (CDelete i) st)) = notes (run (CDelete i) st)
  ∧ selectedId (run (CDelete i) (run (CDelete i) st))
    = selectedId (run (CDelete i) st)
  ∧ (i ∉ Note.id <$> notes st → notes (run (CDelete i) st) = notes st).
Proof.
  assert (Hn : ∀ s, notes (run (CDelete i) s) = filter (λ n, Note.id n ≠ i) (notes s))
    by (intros s; rewrite run_notes; apply handleDeleteNote_notes).
  split_and!.
  - by rewrite !Hn, filter_id_twice.
  - rewrite (run_CDelete_selectedId i (run (CDelete i) st)).
    rewrite Hn, filter_id_twice, run_CDelete_selectedId.
    destruct (filter _ (notes st)) as [|m ms] eqn:E; [done|].
    assert (Hm : Note.id m ≠ i).
    { assert (m ∈ filter (λ n, Note.id n ≠ i) (notes st))
        by (rewrite E; apply list_elem_of_here).
      by apply list_elem_of_filter in H as [? _]. }
    set (sel' := if bool_decide (selectedId st = Some i) then Some (Note.id m)
                 else if truthy_id (selectedId st) then selectedId st
                      else Some (Note.id m)).
    assert (Hne : sel' ≠ Some i).
    { unfold sel'. case_bool_decide; [congruence|].
      destruct (truthy_id (selectedId st)); congruence. }
    rewrite (bool_decide_eq_false_2 _ Hne).
    unfold sel'. case_bool_decide; simpl.
    + by destruct (truthy (Note.id m)).
    + destruct (truthy_id (selectedId st)) eqn:Ht; [by rewrite Ht|].
      simpl. by destruct (truthy (Note.id m)).
  - intros Hnot. rewrite Hn. apply filter_all, Forall_forall.
    intros n Hin <-. apply Hnot, list_elem_of_fmap. by exists n.
Qed.

Lemma delete_twice_witness :
  notes (run (CDelete (js "7")) editing_B) = notes editing_B.
Proof.
  apply (proj2 (proj2 (delete_twice (js "7") editing_B))).
  apply (bool_decide_unpack _). vm_compute. exact I.
Defined.

Lemma run_CDelete_search i st : search (run (CDelete i) st) = search st.
Proof.
  rewrite run_CDelete. unfold handleDeleteNote.
  destruct st as [ns r sel cr ed q sb]; simpl.
  case_bool_decide; unfold selectEffect; simpl;
    repeat (case_match; simpl; try done).
Qed.

(** X8. Deleting commutes with the sidebar search: the list shown after a
    delete is the list shown before it without the notes of that id, and the
    query is kept. *)
Theorem delete_filtered (toLowerCase : jsstring → jsstring) (i : jsstring)
    (st : AppState) :
  search (run (CDelete i) st) = search st
  ∧ filteredNotes toLowerCase (run (CDelete i) st)
    = filter (λ n, Note.id n ≠ i) (filteredNotes toLowerCase st).
Proof.
  split; [apply run_CDelete_search|].
  unfold filteredNotes.
  rewrite run_CDelete_search, run_notes; cbn [handler].
  rewrite handleDeleteNote_notes.
  destruct (truthy (search st)); [|done].
  rewrite !list_filter_filter. apply list_filter_iff. intros n. tauto.
Qed.

Lemma occurs_trans (a b c : jsstring) : occurs a b → occurs b c → occurs a c.
Proof.
  intros (p1 & q1 & ->) (p2 & q2 & ->).
  exists (p2 ++ p1), (q1 ++ q2). by rewrite <- !app_assoc.
Qed.

Lemma run_CSearch q st : run (CSearch q) st = setSearch q st.
Proof. by apply run_unchanged_deps. Qed.

(** X9. Refining the query narrows the list: if the lower-cased old query
    occurs in the lower-cased new one, and neither is empty, the notes shown
    for the new query are a subsequence of those shown for the old. *)
Theorem narrower_query (toLowerCase : jsstring → jsstring) (q q' : jsstring)
    (st : AppState) :
  q ≠ [] → q' ≠ [] → occurs (toLowerCase q) (toLowerCase q') →
  filteredNotes toLowerCase (run (CSearch q') st)
  `sublist_of` filteredNotes toLowerCase (run (CSearch q) st).
Proof.
  intros Hq Hq' Hocc. rewrite !run_CSearch. unfold filteredNotes; simpl.
  destruct q as [|a q]; [done|]. destruct q' as [|a' q']; [done|]. simpl.
  rewrite <- (list_filter_filter_l
    (λ n, matches toLowerCase (a' :: q') n = true)
    (λ n, matches toLowerCase (a :: q) n = true)).
  - apply sublist_filter.
  - intros n. unfold matches. rewrite !orb_true_iff, !includes_occurs.
    intros [H|H]; [left|right]; by eapply occurs_trans.
Qed.

Lemma narrower_query_witness :
  filteredNotes toLowerCase_latin (run (CSearch (js "Milk")) editing_B)
  `sublist_of` filteredNotes toLowerCase_latin (run (CSearch (js "il")) editing_B).
Proof.
  apply (narrower_query toLowerCase_latin (js "il") (js "Milk") editing_B);
    [discriminate|discriminate|].
  exists (js "m"), (js "k"). reflexivity.
Defined.

(** ** What the main area shows *)

Lemma mainArea_closed st :
  isCreating st = false → editNote st = EditNote.blank →
  mainArea st = match currentNote st with
                | Some n => ViewNote n
                | None => NoNotes
                end.
Proof.
  intros Hc He. unfold mainArea. rewrite Hc, He. simpl.
  by rewrite andb_false_r.
Qed.

Lemma selectEffect_closed st :
  isCreating st = false → editNote st = EditNote.blank →
  isCreating (selectEffect st) = false ∧ editNote (selectEffect st) = EditNote.blank.
Proof.
  destruct st as [[|n ns] r sel cr ed q sb]; unfold selectEffect; simpl;
    intros -> ->; by destruct (truthy_id sel).
Qed.

Lemma afterRender_closed old new :
  isCreating new = false → editNote new = EditNote.blank →
  isCreating (afterRender old new) = false
  ∧ editNote (afterRender old new) = EditNote.blank.
Proof.
  intros Hc He.
  destruct (afterRender_cases old new) as [-> | ->]; [done|].
  by apply selectEffect_closed.
Qed.

Lemma currentNote_find st i k n :
  selectedId st = Some i →
  list_find (λ m, Note.id m = i) (notes st) = Some (k, n) →
  currentNote st = Some n.
Proof. unfold currentNote. by intros -> ->. Qed.

(** X10. Selecting the id of a note shows that note: for a non-empty id
    that some note carries, the selection becomes that id, the creating flag
    and the edit buffer are cleared, the collection is untouched and the
    main area shows the first note with that id in view mode. *)
Theorem select_shows_note (i : jsstring) (st : AppState) (k : nat) (n : Note.t) :
  truthy i = true →
  list_find (λ m, Note.id m = i) (notes st) = Some (k, n) →
  selectedId (run (CSelect i) st) = Some i
  ∧ isCreating (run (CSelect i) st) = false
  ∧ editNote (run (CSelect i) st) = EditNote.blank
  ∧ notes (run (CSelect i) st) = notes st
  ∧ mainArea (run (CSelect i) st) = ViewNote n.
Proof.
  intros Hi Hfind.
  assert (Hne : notes st ≠ []) by (intros E; by rewrite E in Hfind).
  assert (Hrun : run (CSelect i) st = handleSelectNote i st).
  { unfold run; cbn [handler].
    destruct (afterRender_cases st (handleSelectNote i st)) as [-> | ->]; [done|].
    by apply selectEffect_selected. }
  rewrite Hrun. split_and!; try done.
  rewrite mainArea_closed by done.
  by rewrite (currentNote_find _ i k n).
Qed.

Lemma select_shows_note_witness :
  mainArea (run (CSelect (js "1")) editing_B)
  = ViewNote (Note.mk (js "1") (js "A") (js "a") (js "1970-01-01T00:00:00.001Z")).
Proof.
  exact (proj2 (proj2 (proj2 (proj2 (select_shows_note (js "1") editing_B 1%nat
    (Note.mk (js "1") (js "A") (js "a") (js "1970-01-01T00:00:00.001Z"))
    eq_refl eq_refl))))).
Defined.

(** X11. A selection, Cancel and an accepted save all close the form: after
    them the creating flag is off and the edit buffer is blank, so the main
    area shows a note or the "no notes" message, never the form. *)
Theorem form_closes (c : command) (st : AppState) :
  (∃ i, c = CSelect i) ∨ c = CCancel
  ∨ (∃ now stamp, c = CSave now stamp
       ∧ blank_input (EditNote.title (editNote st))
                     (EditNote.content (editNote st)) = false) →
  isCreating (run c st) = false
  ∧ editNote (run c st) = EditNote.blank
  ∧ ∀ buffer, mainArea (run c st) ≠ Form buffer.
Proof.
  intros Hc.
  assert (H : isCreating (handler c st) = false
              ∧ editNote (handler c st) = EditNote.blank).
  { destruct Hc as [[i ->] | [-> | (now & stamp & -> & Hb)]]; [done|done|].
    cbn [handler].
    destruct (truthy_id (selectedId st) && negb (isCreating st)) eqn:Hu.
    - rewrite handleSaveNote_update by done. simpl. split; [|done].
      apply andb_true_iff in Hu as [_ Hu]. by apply negb_true_iff in Hu.
    - by rewrite handleSaveNote_create by done. }
  destruct H as [H1 H2].
  destruct (afterRender_closed st (handler c st) H1 H2) as [H3 H4].
  fold (run c st) in H3, H4. split_and!; [done|done|].
  intros buffer. rewrite mainArea_closed by done.
  by destruct (currentNote (run c st)).
Qed.

Lemma form_closes_witness :
  mainArea editing_B = Form (EditNote.mk (js "B") (js "b"))
  ∧ ∀ buffer, mainArea (run CCancel editing_B) ≠ Form buffer.
Proof.
  split; [reflexivity|].
  exact (proj2 (proj2 (form_closes CCancel editing_B (or_intror (or_introl eq_refl))))).
Defined.

Lemma afterRender_reselected old new :
  selectedId old ≠ selectedId new → afterRender old new = selectEffect new.
Proof.
  intros H. unfold afterRender, deps_changed.
  rewrite (bool_decide_eq_false_2 _ H), orb_true_r; simpl.
  case_match; by rewrite ?selectEffect_idemp.
Qed.

Lemma list_find_head (i : jsstring) (n : Note.t) (ns : list Note.t) :
  Note.id n = i → list_find (λ m, Note.id m = i) (n :: ns) = Some (0%nat, n).
Proof. intros H. cbn. by rewrite decide_True. Qed.

(** X12. The add button followed by Cancel lands on the most recent note,
    whichever note was selected before: the add button clears the selection,
    the selection effect then selects the first note of the collection, and
    Cancel only closes the form. *)
Theorem add_then_cancel (st : AppState) (n : Note.t) (rest : list Note.t) :
  notes st = n :: rest → truthy_id (selectedId st) = true →
  selectedId (run CCancel (run CAdd st)) = Some (Note.id n)
  ∧ notes (run CCancel (run CAdd st)) = notes st
  ∧ mainArea (run CAdd st) = Form EditNote.blank
  ∧ mainArea (run CCancel (run CAdd st)) = ViewNote n.
Proof.
  intros Hn Hsel.
  assert (Hadd : run CAdd st =
    mkApp (notes st) (notesRef st) (Some (Note.id n)) true EditNote.blank
          (search st) (sidebarOpen st)).
  { unfold run; cbn [handler]. rewrite afterRender_reselected.
    - destruct st as [ns r sel cr ed q sb]; simpl in *. by subst ns.
    - simpl. by destruct (selectedId st). }
  assert (Hcancel : run CCancel (run CAdd st) = handleCancel (run CAdd st))
    by by apply run_unchanged_deps.
  rewrite Hcancel, Hadd. split_and!; try done.
  rewrite mainArea_closed by done.
  erewrite currentNote_find; [done|done|]. simpl. rewrite Hn.
  by apply list_find_head.
Qed.

Lemma add_then_cancel_witness :
  mainArea (run CCancel (run CAdd (run (CSelect (js "1")) editing_B)))
  = ViewNote (Note.mk (js "2") (js "B") (js "b") (js "1970-01-01T00:00:00.002Z")).
Proof.
  exact (proj2 (proj2 (proj2 (add_then_cancel (run (CSelect (js "1")) editing_B)
    (Note.mk (js "2") (js "B") (js "b") (js "1970-01-01T00:00:00.002Z"))
    [Note.mk (js "1") (js "A") (js "a") (js "1970-01-01T00:00:00.001Z")]
    eq_refl eq_refl)))).
Defined.

(** X13. An accepted add ends in view mode on the new note: the main area
    shows the note just created. *)
Theorem add_shows_new_note (call : AddCall) (st : AppState) :
  accepted call = true →
  mainArea (add call st) = ViewNote (added_note call).
Proof.
  intros Hacc. rewrite (add_accepted _ _ Hacc).
  rewrite mainArea_closed by done.
  erewrite currentNote_find; [done|done|].
  cbn. rewrite decide_True by done. reflexivity.
Qed.

Lemma add_shows_new_note_witness :
  mainArea (add (mkAdd (js "Groceries") (js "Milk, eggs") 5 (js "t")) (mount [] 1024))
  = ViewNote (Note.mk (js "5") (js "Groceries") (js "Milk, eggs") (js "t")).
Proof.
  exact (add_shows_new_note (mkAdd (js "Groceries") (js "Milk, eggs") 5 (js "t"))
           (mount [] 1024) eq_refl).
Defined.

Lemma mount_eq (loaded : list Note.t) (innerWidth : Z) :
  mount loaded innerWidth =
    mkApp loaded 0 (fmap Note.id (head loaded)) false EditNote.blank []
          (bool_decide (800 < innerWidth)%Z).
Proof.
  unfold mount.
  destruct (afterRender_cases (initial loaded)
              (handleResize innerWidth (selectEffect (initial loaded))))
    as [-> | ->]; destruct loaded as [|n rest]; try done.
  unfold selectEffect; simpl. by destruct (truthy (Note.id n)).
Qed.

(** X14. The first render shows the most recent stored note: for a loaded
    collection the id of its first note is selected and that note is in view
    mode; for an empty one nothing is selected and the "no notes" message
    shows.  The sidebar is open exactly above 800 pixels
    of window width. *)
Theorem mount_shows_first (loaded : list Note.t) (innerWidth : Z) :
  notes (mount loaded innerWidth) = loaded
  ∧ sidebarOpen (mount loaded innerWidth) = bool_decide (800 < innerWidth)%Z
  ∧ (loaded = [] →
       selectedId (mount loaded innerWidth) = None
       ∧ mainArea (mount loaded innerWidth) = NoNotes)
  ∧ (∀ n rest, loaded = n :: rest →
       selectedId (mount loaded innerWidth) = Some (Note.id n)
       ∧ mainArea (mount loaded innerWidth) = ViewNote n).
Proof.
  rewrite mount_eq. simpl. split_and!; try done.
  - by intros ->.
  - intros n rest ->. split; [done|].
    rewrite mainArea_closed by done.
    erewrite currentNote_find; [done|done|]. by apply list_find_head.
Qed.

Lemma mount_shows_first_witness :
  mainArea (mount [Note.mk (js "2") (js "B") (js "b") (js "t2");
                   Note.mk (js "1") (js "A") (js "a") (js "t1")] 640)
  = ViewNote (Note.mk (js "2") (js "B") (js "b") (js "t2"))
  ∧ mainArea (mount [] 640) = NoNotes.
Proof.
  split.
  - exact (proj2 (proj2 (proj2 (proj2 (mount_shows_first
      [Note.mk (js "2") (js "B") (js "b") (js "t2");
       Note.mk (js "1") (js "A") (js "a") (js "t1")] 640))) _ _ eq_refl)).
  - exact (proj2 (proj1 (proj2 (proj2 (mount_shows_first [] 640))) eq_refl)).
Defined.

(** ** The selection never dangles *)

Lemma afterRender_unfold old new :
  afterRender old new = if deps_changed old new then selectEffect new else new.
Proof.
  unfold afterRender. destruct (deps_changed old new); [|done].
  case_match; by rewrite ?selectEffect_idemp.
Qed.

Lemma selection_valid_weaken st :
  selection_valid st →
  truthy_id (selectedId st) = true →
  ∃ n, n ∈ notes st ∧ selectedId st = Some (Note.id n).
Proof.
  intros [_ H] Ht. destruct (notes st); [|done]. by rewrite H in Ht.
Qed.

(** The selection effect repairs a selection that is falsy. *)
Lemma selectEffect_valid st :
  Forall (λ n, truthy (Note.id n) = true) (notes st) →
  (truthy_id (selectedId st) = true →
     ∃ n, n ∈ notes st ∧ selectedId st = Some (Note.id n)) →
  selection_valid (selectEffect st).
Proof.
  intros Hall Hsel. unfold selection_valid.
  rewrite selectEffect_notes, selectEffect_selectedId. split; [done|].
  destruct (notes st) as [|m ms] eqn:E; [done|].
  destruct (truthy_id (selectedId st)); [by apply Hsel|].
  exists m. split; [apply list_elem_of_here|done].
Qed.

Lemma handler_weak_valid c st :
  selection_valid st → offered c st →
  Forall (λ n, truthy (Note.id n) = true) (notes (handler c st))
  ∧ (truthy_id (selectedId (handler c st)) = true →
       ∃ n, n ∈ notes (handler c st)
            ∧ selectedId (handler c st) = Some (Note.id n)).
Proof.
  intros Hv Hoff. pose proof (selection_valid_weaken st Hv) as Hw.
  destruct Hv as [Hall _].
  destruct c; cbn [handler]; try done.
  - (* select *)
    split; [done|]. intros _. simpl in *.
    apply list_elem_of_fmap in Hoff as (n & -> & Hn). by exists n.
  - (* edit *)
    unfold handleEditNote. by destruct (currentNote st).
  - (* delete *)
    rewrite handleDeleteNote_notes, handleDeleteNote_selectedId. split.
    + apply Forall_forall. intros n [_ Hn]%list_elem_of_filter.
      by eapply Forall_forall in Hall.
    + case_bool_decide as Hsel.
      * destruct (filter _ (notes st)) as [|m ms]; [done|].
        intros _. exists m. split; [apply list_elem_of_here|done].
      * intros Ht. destruct (Hw Ht) as (n & Hn & Hs).
        exists n. split; [|done]. apply list_elem_of_filter.
        split; [congruence|done].
  - (* save *)
    destruct (blank_input (EditNote.title (editNote st))
                          (EditNote.content (editNote st))) eqn:Hb.
    { by rewrite handleSaveNote_blank. }
    destruct (truthy_id (selectedId st) && negb (isCreating st)) eqn:Hu.
    + rewrite handleSaveNote_update by done; simpl. split.
      * apply Forall_fmap. eapply Forall_impl; [exact Hall|].
        intros n Hn; simpl. by case_bool_decide.
      * intros Ht. destruct (Hw Ht) as (n & Hn & Hs).
        eexists. split; [apply list_elem_of_fmap; by exists n|].
        rewrite Hs. by case_bool_decide.
    + rewrite handleSaveNote_create by done; simpl. split.
      * constructor; [apply toString_truthy|done].
      * intros _. eexists. split; [apply list_elem_of_here|done].
  - by destruct name.
Qed.

Lemma handler_same_array c st :
  notesRef (handler c st) = notesRef st → notes (handler c st) = notes st.
Proof.
  destruct c; cbn [handler]; try done.
  - unfold handleEditNote. by destruct (currentNote st).
  - unfold handleDeleteNote. case_bool_decide; simpl; lia.
  - destruct (blank_input (EditNote.title (editNote st))
                          (EditNote.content (editNote st))) eqn:Hb.
    { by rewrite handleSaveNote_blank. }
    destruct (truthy_id (selectedId st) && negb (isCreating st)) eqn:Hu.
    + rewrite handleSaveNote_update by done; simpl. lia.
    + rewrite handleSaveNote_create by done; simpl. lia.
  - by destruct name.
Qed.

Lemma selection_valid_run c st :
  selection_valid st → offered c st → selection_valid (run c st).
Proof.
  intros Hv Hoff. unfold run. rewrite afterRender_unfold.
  destruct (deps_changed st (handler c st)) eqn:Hd.
  - destruct (handler_weak_valid c st Hv Hoff). by apply selectEffect_valid.
  - unfold deps_changed in Hd. apply orb_false_iff in Hd as [Hr Hs].
    apply negb_false_iff, bool_decide_eq_true in Hr, Hs.
    pose proof (handler_same_array c st (eq_sym Hr)) as Hn.
    unfold selection_valid. by rewrite Hn, <- Hs.
Qed.

Lemma ui_selection_valid st : ui_reachable st → selection_valid st.
Proof.
  induction 1 as [w|c st _ IH Hoff].
  - rewrite mount_eq. split; [constructor|done].
  - by apply selection_valid_run.
Qed.

(** A run of commands none of which selects or deletes. *)
Lemma ui_reachable_run_all cs st :
  ui_reachable st →
  Forall (λ c, match c with CSelect _ | CDelete _ => False | _ => True end) cs →
  ui_reachable (run_all cs st).
Proof.
  revert st. induction cs as [|c cs IH]; intros st Hst Hcs; [done|].
  inversion Hcs as [|? ? Hc Hcs']; subst.
  apply IH; [|done]. apply ui_run; [done|]. by destruct c.
Qed.

(** X15. Through the commands the page offers (a list item selects or
    deletes a note that exists), the selection never dangles: nothing is
    selected exactly when the collection is empty, otherwise the selected
    id is that of an existing note, which is the current note; and the
    "No notes to display" message shows exactly when the collection is
    empty and the form is not open for a new note. *)
Theorem selection_never_dangles (st : AppState) :
  ui_reachable st →
  (notes st = [] ↔ selectedId st = None)
  ∧ (notes st ≠ [] →
       ∃ n, currentNote st = Some n ∧ n ∈ notes st
            ∧ selectedId st = Some (Note.id n))
  ∧ (mainArea st = NoNotes ↔ notes st = [] ∧ isCreating st = false).
Proof.
  intros [Hall Hsel]%ui_selection_valid.
  assert (Hcur : notes st ≠ [] →
    ∃ n, currentNote st = Some n ∧ n ∈ notes st
         ∧ selectedId st = Some (Note.id n)).
  { intros Hne. destruct (notes st) as [|m ms] eqn:E; [done|].
    destruct Hsel as (n & Hn & Hs). rewrite <- E in *.
    destruct (list_find_elem_of (λ m, Note.id m = Note.id n) (notes st) n Hn eq_refl)
      as [[k x] Hx].
    exists x. pose proof Hx as (Hk & Hid & _)%list_find_Some.
    split_and!.
    - by eapply currentNote_find.
    - by eapply list_elem_of_lookup_2.
    - by rewrite Hid. }
  split_and!.
  - destruct (notes st) as [|m ms]; [done|].
    destruct Hsel as (n & _ & ->). done.
  - done.
  - split.
    + intros Hm. unfold mainArea in Hm.
      destruct (isCreating st) eqn:Hc; [done|]. simpl in Hm.
      destruct (notes st) as [|m ms] eqn:E; [done|].
      destruct Hcur as (n & Hn & _); [done|]. rewrite Hn in Hm.
      by case_match.
    + intros [Hn Hc]. rewrite Hn in Hsel.
      unfold mainArea, currentNote. by rewrite Hc, Hsel.
Qed.

Lemma selection_never_dangles_witness :
  ∃ n, currentNote (run (CDelete (js "2")) editing_B) = Some n
       ∧ n ∈ notes (run (CDelete (js "2")) editing_B)
       ∧ selectedId (run (CDelete (js "2")) editing_B) = Some (Note.id n).
Proof.
  assert (Hne : notes (run (CDelete (js "2")) editing_B) ≠ [])
    by (vm_compute; discriminate).
  assert (Hr : ui_reachable (run (CDelete (js "2")) editing_B)).
  { apply ui_run.
    - apply ui_reachable_run_all; [apply ui_mount|].
      repeat (constructor; [exact I|]). constructor.
    - change (js "2" ∈ Note.id <$> notes editing_B).
      apply (bool_decide_unpack _). vm_compute. exact I. }
  exact (proj1 (proj2 (selection_never_dangles _ Hr)) Hne).
Defined.

(** X16. What a delete does to the form: the creating flag is always
    cleared; the edit buffer is blanked when the collection becomes empty
    and is otherwise left exactly as it was. *)
Theorem delete_view_state (i : jsstring) (st : AppState) :
  isCreating (run (CDelete i) st) = false
  ∧ (notes (run (CDelete i) st) = [] →
       editNote (run (CDelete i) st) = EditNote.blank)
  ∧ (notes (run (CDelete i) st) ≠ [] →
       editNote (run (CDelete i) st) = editNote st).
Proof.
  split_and!.
  - apply run_CDelete_isCreating.
  - rewrite run_CDelete, selectEffect_notes.
    destruct (handleDeleteNote i st) as [[|n ns] r sel cr ed q sb];
      unfold selectEffect; simpl; [|done]. by destruct (truthy_id sel).
  - apply run_CDelete_editNote.
Qed.

Lemma delete_view_state_witness :
  editNote (run (CDelete (js "1")) editing_B) = EditNote.mk (js "B") (js "b").
Proof.
  refine (proj2 (proj2 (delete_view_state (js "1") editing_B)) _).
  vm_compute. discriminate.
Defined.

(** ** The sidebar items *)

Lemma ui_reachable_reachable st : ui_reachable st → reachable st.
Proof. induction 1; by constructor. Qed.

(** X17. What a sidebar item shows, in a state reached through the page:
    its label is the note's title (the "(Untitled)" fallback is never
    needed), its preview is the first 42 code units of the content, the
    whole content when that is shorter, and it is marked selected exactly
    when its id is the selected one and the form was not opened by the add
    button; outside creating mode, when notes exist, some note is marked. *)
Theorem sidebar_items (st : AppState) :
  ui_reachable st →
  (∀ n, n ∈ notes st →
     item_label (sidebarItem st n) = Note.title n
     ∧ item_mini (sidebarItem st n) = take 42 (Note.content n)
     ∧ (length (item_mini (sidebarItem st n)) ≤ 42)%nat
     ∧ (item_selected (sidebarItem st n) = true
        ↔ isCreating st = false ∧ selectedId st = Some (Note.id n)))
  ∧ (isCreating st = false → notes st ≠ [] →
       ∃ n, n ∈ notes st ∧ item_selected (sidebarItem st n) = true).
Proof.
  intros Hui. split.
  - intros n Hn.
    pose proof (reachable_normal st (ui_reachable_reachable st Hui)) as Hall.
    eapply Forall_forall in Hall; [|exact Hn].
    destruct Hall as (_ & _ & Hne & _).
    unfold sidebarItem; simpl. split_and!.
    + unfold or_else. by destruct (Note.title n).
    + by destruct (Note.content n).
    + destruct (Note.content n); simpl; [lia|]. rewrite length_take. lia.
    + rewrite andb_true_iff, bool_decide_eq_true, negb_true_iff.
      split; intros [? ?]; by split.
  - intros Hc Hne.
    destruct (ui_selection_valid st Hui) as [_ Hsel].
    destruct (notes st) as [|m ms] eqn:E; [done|].
    destruct Hsel as (n & Hn & Hs). exists n. split; [done|].
    unfold sidebarItem; simpl. rewrite Hc, Hs. by rewrite bool_decide_eq_true_2.
Qed.

Lemma sidebar_items_witness :
  ∃ n, n ∈ notes (run_all [CAdd; CChange FTitle (js "A"); CSave 1 (js "t")]
                          (mount [] 1024))
       ∧ item_selected
           (sidebarItem (run_all [CAdd; CChange FTitle (js "A"); CSave 1 (js "t")]
                                 (mount [] 1024)) n) = true.
Proof.
  assert (Hr : ui_reachable
            (run_all [CAdd; CChange FTitle (js "A"); CSave 1 (js "t")]
                     (mount [] 1024))).
  { apply ui_reachable_run_all; [apply ui_mount|].
    repeat (constructor; [exact I|]). constructor. }
  apply (proj2 (sidebar_items _ Hr)); [reflexivity|].
  vm_compute. discriminate.
Defined.

(** ** Persisting, again *)

(** X18. The persisted text determines the collection: two collections
    that are written as the same text are the same collection, note for note
    and in the same order, and the text written is never empty. *)
Theorem persist_inj (ns ms : list Note.t) :
  persist ns ≠ [] ∧ (persist ns = persist ms → ns = ms).
Proof.
  split; [by destruct ns|].
  intros H. apply notes_value_inj.
  pose proof (parse_persist ns) as Hn. rewrite H, parse_persist in Hn.
  congruence.
Qed.

Lemma persist_inj_witness :
  [Note.mk (js "1") (js "a,b") [] (js "t")]
  = [Note.mk (js "1") (js "a,b") [] (js "t")].
Proof. apply (proj2 (persist_inj _ _)). reflexivity. Defined.
